(** * The MSM lazy DMA/IOMMU mapping cache

    A shallow embedding of [drivers/iommu/msm_dma_iommu_mapping.c].

    The file under verification carries two generations of the driver side
    by side.  The list-based cache (struct [msm_iommu_map] with an [int]
    refcount, [msm_iommu_map_lookup], [msm_iommu_map_free], the first
    [msm_dma_map_sg_attrs], [msm_dma_unmap_sg], [msm_dma_unmap_all_for_dev]
    and [msm_dma_buf_freed]) is embedded at top level.  The kref-based
    remnants ([__msm_dma_map_sg] and the second [msm_dma_map_sg_attrs],
    [msm_iommu_meta_put], [msm_iommu_meta_destroy],
    [msm_iommu_map_release]) are embedded in [Module Legacy].

    Pointers are positive numbers.  The heap of kmalloc'ed records is a
    finite map; the two intrusive lists ([data->map_list] threaded through
    [data_node], [dev->iommu_map_list] threaded through [dev_node]) are
    lists of record pointers, so one record is shared by both lists and a
    refcount update is seen through either.  Mutexes are not modelled: every
    operation runs to completion under its locks; the only lock operation
    with an observable outcome, [mutex_trylock], reads its outcome from a
    schedule.  External DMA primitives are recorded on a trace. *)

From stdpp Require Import base gmap list.
From Stdlib Require Import ZArith Lia.

Local Open Scope Z_scope.

(** ** C integer conversions *)

(** Conversion of a mathematical integer to a 32-bit [int] (two's
    complement wrap-around). *)
Definition to_int (z : Z) : Z := (z + 2 ^ 31) mod 2 ^ 32 - 2 ^ 31.

Definition INT_MAX : Z := 2 ^ 31 - 1.
Definition INT_MIN : Z := - 2 ^ 31.

(** ** Data *)

Inductive dma_data_direction :=
  | DMA_BIDIRECTIONAL
  | DMA_TO_DEVICE
  | DMA_FROM_DEVICE
  | DMA_NONE.

#[global] Instance dma_data_direction_eq_dec : EqDecision dma_data_direction.
Proof. solve_decision. Defined.

(** The two fields of [struct scatterlist] the cache reads and writes, and
    the physical address [sg_phys] reports for it. *)
Record scatterlist := Scatterlist {
  sg_phys : Z;
  dma_address : Z;
  dma_length : Z;
}.

#[global] Instance scatterlist_eq_dec : EqDecision scatterlist.
Proof. solve_decision. Defined.

(** [struct msm_iommu_map].  [dev] and [data] are the pointers to the
    owning device and to the buffer's [struct msm_iommu_data]; the list
    nodes [data_node] and [dev_node] are represented by the membership of
    the record's pointer in the two lists of [state]. *)
Record msm_iommu_map := Msm_iommu_map {
  dev : positive;
  data : positive;
  sg : scatterlist;
  dir : dma_data_direction;
  nents : Z;
  refcount : Z;
}.

Definition set_refcount (r : Z) (m : msm_iommu_map) : msm_iommu_map :=
  {| dev := dev m; data := data m; sg := sg m; dir := dir m;
     nents := nents m; refcount := r |}.

(** What the driver does to the outside world. *)
Inductive event :=
  | Ev_dma_map_sg_attrs (d : positive) (n : Z) (dr : dma_data_direction)
                        (attrs : Z) (ret : Z)
  | Ev_dma_unmap_sg (d : positive) (s : scatterlist) (n : Z)
                    (dr : dma_data_direction)
  | Ev_dmb
  | Ev_dev_err (d : positive)
  | Ev_pr_err
  | Ev_WARN (buffer : positive).

#[global] Instance event_eq_dec : EqDecision event.
Proof. solve_decision. Defined.

Definition is_unmap (e : event) : bool :=
  match e with Ev_dma_unmap_sg _ _ _ _ => true | _ => false end.

Definition is_warning (e : event) : bool :=
  match e with
  | Ev_WARN _ | Ev_dev_err _ | Ev_pr_err => true
  | _ => false
  end.

(** Number of events of a kind on a trace. *)
Definition count (f : event → bool) (t : list event) : nat :=
  length (List.filter f t).

(** The external unmap call that releases the mapping of a record. *)
Definition unmap_event (m : msm_iommu_map) : event :=
  Ev_dma_unmap_sg (dev m) (sg m) (nents m) (dir m).

(** The state of the cache: the live records, the per-buffer lists
    ([data->map_list]), the per-device lists ([dev->iommu_map_list]) and
    the trace of external effects, newest first.  A buffer or device with
    no entry has an empty list. *)
Record state := State {
  maps : gmap positive msm_iommu_map;
  map_list : gmap positive (list positive);
  iommu_map_list : gmap positive (list positive);
  trace : list event;
}.

Definition empty_state : state :=
  {| maps := ∅; map_list := ∅; iommu_map_list := ∅; trace := [] |}.

(** The Buffer Mapping Index of buffer [b] and the Device Mapping Index of
    device [d]. *)
Definition data_list (s : state) (b : positive) : list positive :=
  default [] (map_list s !! b).

Definition dev_list (s : state) (d : positive) : list positive :=
  default [] (iommu_map_list s !! d).

(** ** List primitives of <linux/list.h> *)

(** [list_add(new, head)] links [new] right after the head. *)
Definition list_add (p : positive) (head : positive)
    (lists : gmap positive (list positive)) : gmap positive (list positive) :=
  <[head := p :: default [] (lists !! head)]> lists.

(** [list_del(entry)] unlinks the node from whichever list holds it. *)
Definition list_del (p : positive)
    (lists : gmap positive (list positive)) : gmap positive (list positive) :=
  filter (λ q, q ≠ p) <$> lists.

(** ** The list-based cache *)

(** [list_for_each_entry(map, &data->map_list, data_node)
       if (map->dev == dev) return map;]
    A list links live records only ([wf] below); a pointer with no record
    behind it is passed over. *)
Fixpoint lookup_in (h : gmap positive msm_iommu_map) (l : list positive)
    (d : positive) : option (positive * msm_iommu_map) :=
  match l with
  | [] => None
  | p :: l' =>
      match h !! p with
      | Some m => if decide (dev m = d) then Some (p, m) else lookup_in h l' d
      | None => lookup_in h l' d
      end
  end.

Definition msm_iommu_map_lookup (s : state) (b d : positive)
    : option (positive * msm_iommu_map) :=
  lookup_in (maps s) (data_list s b) d.

(** [msm_iommu_map_free]: unlink from both lists, tear the mapping down,
    release the record.  The callers pass a pointer taken from a lookup or
    from a list, which is live; on any other pointer the model does
    nothing. *)
Definition msm_iommu_map_free (p : positive) (s : state) : state :=
  match maps s !! p with
  | Some m =>
      {| maps := delete p (maps s);
         map_list := list_del p (map_list s);
         iommu_map_list := list_del p (iommu_map_list s);
         trace := Ev_dma_unmap_sg (dev m) (sg m) (nents m) (dir m) :: trace s |}
  | None => s
  end.

(** [kmalloc] with [GFP_KERNEL | __GFP_NOFAIL]: an address that
    holds no live record; with [__GFP_NOFAIL] the allocator never returns
    [NULL]. *)
Definition kmalloc_nofail (s : state) : positive := fresh (dom (maps s)).

Section Cache.

(** The flag bit of <linux/dma-mapping.h>; its value is not fixed here. *)
Variable DMA_ATTR_NO_DELAYED_UNMAP : Z.

(** The external mapping primitive: given what happened so far and the
    call's arguments it returns the number of mapped entries (0 on
    failure) and the scatterlist with its DMA address filled in. *)
Variable dma_map_sg_attrs :
  list event → positive → scatterlist → Z → dma_data_direction → Z →
  Z * scatterlist.

Variable is_device_dma_coherent : positive → bool.

(** [int not_lazy = (attrs & DMA_ATTR_NO_DELAYED_UNMAP);] *)
Definition not_lazy (attrs : Z) : Z :=
  to_int (Z.land attrs DMA_ATTR_NO_DELAYED_UNMAP).

(** [msm_dma_map_sg_attrs], first definition.  [b] is [dmabuf->priv].
    Returns the value of [nents] at the [return] and the caller's
    scatterlist.  Of the record's [sg] the code assigns [dma_address] and
    [dma_length] only and leaves the rest of the freshly allocated
    [map->sg] uninitialised; the model has to put some value in the
    remaining field and takes the physical address of the mapped
    scatterlist.  What the properties below say about a record's [sg], or
    about the scatterlist handed to the external unmap primitive, is
    limited to [dma_address] and [dma_length]. *)
Definition msm_dma_map_sg_attrs (d : positive) (sg0 : scatterlist)
    (nents0 : Z) (dr : dma_data_direction) (b : positive) (attrs : Z)
    (s : state) : Z * scatterlist * state :=
  match msm_iommu_map_lookup s b d with
  | Some (p, m) =>
      let m' := set_refcount (to_int (refcount m + 1)) m in
      let sg' := {| sg_phys := sg_phys sg0;
                    dma_address := dma_address (sg m);
                    dma_length := dma_length (sg m) |} in
      (nents0, sg',
       {| maps := <[p := m']> (maps s);
          map_list := map_list s;
          iommu_map_list := iommu_map_list s;
          trace := if is_device_dma_coherent d then Ev_dmb :: trace s
                   else trace s |})
  | None =>
      let '(n, sg1) := dma_map_sg_attrs (trace s) d sg0 nents0 dr attrs in
      let t := Ev_dma_map_sg_attrs d nents0 dr attrs n :: trace s in
      if decide (n = 0) then
        (n, sg1,
         {| maps := maps s; map_list := map_list s;
            iommu_map_list := iommu_map_list s; trace := t |})
      else
        let p := kmalloc_nofail s in
        let m := {| dev := d; data := b;
                    sg := {| sg_phys := sg_phys (sg1);
                             dma_address := dma_address sg1;
                             dma_length := dma_length sg1 |};
                    dir := dr; nents := n;
                    refcount := to_int (2 - not_lazy attrs) |} in
        (n, sg1,
         {| maps := <[p := m]> (maps s);
            map_list := list_add p b (map_list s);
            iommu_map_list := list_add p d (iommu_map_list s);
            trace := t |})
  end.

End Cache.

(** [msm_dma_unmap_sg]: [if (map && !--map->refcount) msm_iommu_map_free(map);]
    The arguments [sg], [nents] and [dir] are not read. *)
Definition msm_dma_unmap_sg (d : positive) (b : positive) (s : state)
    : unit * state :=
  match msm_iommu_map_lookup s b d with
  | Some (p, m) =>
      let r := to_int (refcount m - 1) in
      let s1 := {| maps := <[p := set_refcount r m]> (maps s);
                   map_list := map_list s;
                   iommu_map_list := iommu_map_list s;
                   trace := trace s |} in
      if decide (r = 0) then (tt, msm_iommu_map_free p s1) else (tt, s1)
  | None => (tt, s)
  end.

(** [msm_dma_unmap_all_for_dev]: [list_for_each_entry_safe] over the
    device's list, freeing every entry. *)
Definition free_all (l : list positive) (s : state) : state :=
  foldl (λ s p, msm_iommu_map_free p s) s l.

Definition msm_dma_unmap_all_for_dev (d : positive) (s : state) : unit * state :=
  (tt, free_all (dev_list s d) s).

(** One pass of the loop body of [msm_dma_buf_freed] over the entries of
    [data->map_list].  [locks] gives the outcome of the successive
    [mutex_trylock] calls ([true]: acquired); past its end the lock is
    free.  Returns the state, the rest of the schedule and [retry]. *)
Fixpoint buf_freed_pass (l : list positive) (locks : list bool) (retry : Z)
    (s : state) : state * list bool * Z :=
  match l with
  | [] => (s, locks, retry)
  | p :: l' =>
      match locks with
      | false :: locks' => (s, locks', 1)
      | true :: locks' => buf_freed_pass l' locks' retry (msm_iommu_map_free p s)
      | [] => buf_freed_pass l' [] retry (msm_iommu_map_free p s)
      end
  end.

(** [do { ... } while (retry--);] with the number of passes bounded by
    [fuel]. *)
Fixpoint buf_freed_loop (fuel : nat) (b : positive) (locks : list bool)
    (retry : Z) (s : state) : option state :=
  match fuel with
  | O => None
  | S fuel' =>
      let '(s', locks', retry') := buf_freed_pass (data_list s b) locks retry s in
      if decide (retry' = 0) then Some s'
      else buf_freed_loop fuel' b locks' (to_int (retry' - 1)) s'
  end.

Definition msm_dma_buf_freed (fuel : nat) (b : positive) (locks : list bool)
    (s : state) : option state :=
  buf_freed_loop fuel b locks 0 s.

(** ** Sequences of calls and reachable states *)

Fixpoint unmap_n (n : nat) (d b : positive) (s : state) : state :=
  match n with
  | O => s
  | S k => unmap_n k d b (msm_dma_unmap_sg d b s).2
  end.

(** Some record of device [d] is linked in the Buffer Mapping Index of
    [b]; some record of buffer [b] is linked in the Device Mapping Index
    of [d]. *)
Definition in_buffer_index (s : state) (d b : positive) : Prop :=
  ∃ p m, p ∈ data_list s b ∧ maps s !! p = Some m ∧ dev m = d.

Definition in_device_index (s : state) (d b : positive) : Prop :=
  ∃ p m, p ∈ dev_list s d ∧ maps s !! p = Some m ∧ data m = b.

(** The shape the two indexes keep: every live record is linked once in
    the list of its buffer and once in the list of its device, the lists
    link live records only, and a (device, buffer) pair has one record at
    most. *)
Record wf (s : state) : Prop := {
  wf_in_data : ∀ p m, maps s !! p = Some m → p ∈ data_list s (data m);
  wf_in_dev : ∀ p m, maps s !! p = Some m → p ∈ dev_list s (dev m);
  wf_data_live : ∀ b p, p ∈ data_list s b →
                 ∃ m, maps s !! p = Some m ∧ data m = b;
  wf_dev_live : ∀ d p, p ∈ dev_list s d →
                ∃ m, maps s !! p = Some m ∧ dev m = d;
  wf_data_nodup : ∀ b, NoDup (data_list s b);
  wf_dev_nodup : ∀ d, NoDup (dev_list s d);
  wf_key : ∀ p q m n, maps s !! p = Some m → maps s !! q = Some n →
           dev m = dev n → data m = data n → p = q;
}.


Section Reach.

Variable DMA_ATTR_NO_DELAYED_UNMAP : Z.
Variable dma_map_sg_attrs :
  list event → positive → scatterlist → Z → dma_data_direction → Z →
  Z * scatterlist.
Variable is_device_dma_coherent : positive → bool.

Fixpoint map_n (n : nat) (d : positive) (sg0 : scatterlist) (nents0 : Z)
    (dr : dma_data_direction) (b : positive) (attrs : Z) (s : state)
    : state :=
  match n with
  | O => s
  | S k =>
      map_n k d sg0 nents0 dr b attrs
        (msm_dma_map_sg_attrs DMA_ATTR_NO_DELAYED_UNMAP dma_map_sg_attrs
           is_device_dma_coherent d sg0 nents0 dr b attrs s).2
  end.

(** The record [msm_dma_map_sg_attrs] builds on a miss, from what the
    mapping primitive returned ([sg_phys] of its [sg] as in the miss
    branch above: the code leaves that part uninitialised). *)
Definition new_map (d : positive) (sg0 : scatterlist) (n0 : Z)
    (dr : dma_data_direction) (b : positive) (attrs : Z) (s : state)
    : msm_iommu_map :=
  let r := dma_map_sg_attrs (trace s) d sg0 n0 dr attrs in
  {| dev := d; data := b;
     sg := {| sg_phys := sg_phys r.2; dma_address := dma_address r.2;
              dma_length := dma_length r.2 |};
     dir := dr; nents := r.1;
     refcount := to_int (2 - not_lazy DMA_ATTR_NO_DELAYED_UNMAP attrs) |}.

(** One call of a public operation. *)
Inductive step : state → state → Prop :=
  | step_map d sg0 nents0 dr b attrs s :
      step s (msm_dma_map_sg_attrs DMA_ATTR_NO_DELAYED_UNMAP
                dma_map_sg_attrs is_device_dma_coherent
                d sg0 nents0 dr b attrs s).2
  | step_unmap d b s :
      step s (msm_dma_unmap_sg d b s).2
  | step_unmap_all d s :
      step s (msm_dma_unmap_all_for_dev d s).2
  | step_buf_freed fuel b locks s s' :
      msm_dma_buf_freed fuel b locks s = Some s' → step s s'.

Inductive reachable : state → Prop :=
  | reach_init : reachable empty_state
  | reach_step s s' : reachable s → step s s' → reachable s'.

End Reach.

(** ** The kref-based remnants *)

Module Legacy.

Definition ENOMEM : Z := 12.
Definition EINVAL : Z := 22.

(** Modelled from the spec: the kref-based record is not declared in the
    file; its fields are the ones [__msm_dma_map_sg] assigns and
    compares (direction, attribute flags used at creation, identity of
    the underlying memory, device-visible range, owning buffer, owning
    device, refcount). *)
Record msm_iommu_map := Msm_iommu_map {
  dev : positive;
  sgl : scatterlist;
  nents : Z;
  ref : Z;
  meta : positive;
  dir : dma_data_direction;
  map_attrs : Z;
  buf_start_addr : Z;
}.

Definition set_ref (r : Z) (m : msm_iommu_map) : msm_iommu_map :=
  {| dev := dev m; sgl := sgl m; nents := nents m; ref := r;
     meta := meta m; dir := dir m; map_attrs := map_attrs m;
     buf_start_addr := buf_start_addr m |}.

(** Modelled from the spec: [struct msm_iommu_meta] is not declared in
    the file; it is the buffer's metadata object that owns the Buffer
    Mapping Index, with the kref [msm_iommu_meta_put] drops. *)
Record msm_iommu_meta := Msm_iommu_meta {
  buffer : positive;
  meta_ref : Z;
  iommu_maps : list positive;
}.

Definition set_meta_ref (r : Z) (mt : msm_iommu_meta) : msm_iommu_meta :=
  {| buffer := buffer mt; meta_ref := r; iommu_maps := iommu_maps mt |}.

(** [iommu_root] is the tree of metadata objects, keyed by buffer. *)
Record state := State {
  iommu_root : gmap positive msm_iommu_meta;
  maps : gmap positive msm_iommu_map;
  trace : list event;
}.

Definition set_root (r : gmap positive msm_iommu_meta) (s : state) : state :=
  {| iommu_root := r; maps := maps s; trace := trace s |}.

Definition log (e : event) (s : state) : state :=
  {| iommu_root := iommu_root s; maps := maps s; trace := e :: trace s |}.

(** A fallible allocation consumes one outcome of the schedule
    ([true]: memory was available); past its end memory is available. *)
Definition alloc (allocs : list bool) : bool * list bool :=
  match allocs with
  | [] => (true, [])
  | a :: rest => (a, rest)
  end.

(** [kref_init], [kref_get] of <linux/kref.h>. *)
Definition kref_init : Z := 1.
Definition kref_get (r : Z) : Z := to_int (r + 1).

(** Modelled from the spec: [msm_iommu_lookup] is not in the file; it
    looks up an existing record for (buffer, device) in the buffer's
    index, by device identity. *)
Fixpoint lookup_in (h : gmap positive msm_iommu_map) (l : list positive)
    (d : positive) : option (positive * msm_iommu_map) :=
  match l with
  | [] => None
  | p :: l' =>
      match h !! p with
      | Some m => if decide (dev m = d) then Some (p, m) else lookup_in h l' d
      | None => lookup_in h l' d
      end
  end.

Definition msm_iommu_lookup (s : state) (b d : positive)
    : option (positive * msm_iommu_map) :=
  match iommu_root s !! b with
  | Some mt => lookup_in (maps s) (iommu_maps mt) d
  | None => None
  end.

(** Modelled from the spec: [msm_iommu_add] is not in the file; it
    inserts the new record into the buffer's index. *)
Definition msm_iommu_add (b p : positive) (m : msm_iommu_map) (s : state)
    : state :=
  {| iommu_root :=
       alter (λ mt, {| buffer := buffer mt; meta_ref := meta_ref mt;
                       iommu_maps := p :: iommu_maps mt |}) b (iommu_root s);
     maps := <[p := m]> (maps s);
     trace := trace s |}.

(** [msm_iommu_meta_destroy]: warn when mappings are outstanding, erase
    the metadata object from the tree, release it. *)
Definition msm_iommu_meta_destroy (b : positive) (s : state) : state :=
  match iommu_root s !! b with
  | Some mt =>
      {| iommu_root := delete b (iommu_root s);
         maps := maps s;
         trace := if decide (iommu_maps mt = []) then trace s
                  else Ev_WARN (buffer mt) :: trace s |}
  | None => s
  end.

(** [msm_iommu_meta_put]: [kref_put(&meta->ref, msm_iommu_meta_destroy)]. *)
Definition msm_iommu_meta_put (b : positive) (s : state) : state :=
  match iommu_root s !! b with
  | Some mt =>
      let r := to_int (meta_ref mt - 1) in
      let s1 := set_root (<[b := set_meta_ref r mt]> (iommu_root s)) s in
      if decide (r = 0) then msm_iommu_meta_destroy b s1 else s1
  | None => s
  end.

Section Map.

Variable DMA_ATTR_NO_DELAYED_UNMAP : Z.
Variable dma_map_sg_attrs :
  list event → positive → scatterlist → Z → dma_data_direction → Z →
  Z * scatterlist.
Variable is_device_dma_coherent : positive → bool.

(** [int late_unmap = !(attrs & DMA_ATTR_NO_DELAYED_UNMAP);] *)
Definition late_unmap (attrs : Z) : bool :=
  bool_decide (Z.land attrs DMA_ATTR_NO_DELAYED_UNMAP = 0).

(** Modelled from the spec: [msm_iommu_meta_lookup] and
    [msm_iommu_meta_create] are not in the file; the Buffer Mapping
    Index is created lazily on the first map of the buffer.  The
    creation allocates and can fail; the first branch of
    [__msm_dma_map_sg] then takes one more reference for a delayed
    unmap, the second takes a reference on the metadata found.
    Returns whether the extra reference was taken. *)
Definition meta_get_or_create (b : positive) (attrs : Z)
    (allocs : list bool) (s : state) : option (bool * list bool * state) :=
  match iommu_root s !! b with
  | None =>
      let '(ok, allocs1) := alloc allocs in
      if ok then
        let r := if late_unmap attrs then kref_get kref_init else kref_init in
        Some (late_unmap attrs, allocs1,
              set_root (<[b := {| buffer := b; meta_ref := r;
                                  iommu_maps := [] |}]> (iommu_root s)) s)
      else None
  | Some mt =>
      Some (false, allocs,
            set_root (<[b := set_meta_ref (kref_get (meta_ref mt)) mt]>
                        (iommu_root s)) s)
  end.

(** The labels [out_unlock] and [out] when the metadata pointer is
    valid. *)
Definition out (b : positive) (extra_meta_ref_taken : bool) (s : state)
    : state :=
  msm_iommu_meta_put b
    (if extra_meta_ref_taken then msm_iommu_meta_put b s else s).

Definition __msm_dma_map_sg (d : positive) (sg0 : scatterlist)
    (nents0 : Z) (dr : dma_data_direction) (b : positive) (attrs : Z)
    (allocs : list bool) (s : state) : Z * scatterlist * state :=
  match meta_get_or_create b attrs allocs s with
  | None => (- ENOMEM, sg0, s)
  | Some (extra, allocs1, s1) =>
      match msm_iommu_lookup s1 b d with
      | None =>
          let '(ok, allocs2) := alloc allocs1 in
          if negb ok then (- ENOMEM, sg0, out b extra s1) else
          let '(ret, sg1) := dma_map_sg_attrs (trace s1) d sg0 nents0 dr attrs in
          let s2 := log (Ev_dma_map_sg_attrs d nents0 dr attrs ret) s1 in
          if decide (ret = 0) then (ret, sg1, out b extra s2) else
          let '(ok3, _) := alloc allocs2 in
          if negb ok3 then (- ENOMEM, sg1, out b extra s2) else
          let p := fresh (dom (maps s2)) in
          let m := {| dev := d; sgl := sg1; nents := nents0;
                      ref := if late_unmap attrs then kref_get kref_init
                             else kref_init;
                      meta := b; dir := dr; map_attrs := attrs;
                      buf_start_addr := sg_phys sg1 |} in
          (ret, sg1, msm_iommu_add b p m s2)
      | Some (p, m) =>
          if decide (nents0 = nents m ∧ dr = dir m ∧ attrs = map_attrs m
                     ∧ sg_phys sg0 = buf_start_addr m) then
            let sg' := {| sg_phys := sg_phys sg0;
                          dma_address := dma_address (sgl m);
                          dma_length := dma_length (sgl m) |} in
            let s2 := {| iommu_root := iommu_root s1;
                         maps := <[p := set_ref (kref_get (ref m)) m]> (maps s1);
                         trace := if is_device_dma_coherent d
                                  then Ev_dmb :: trace s1 else trace s1 |} in
            (nents0, sg', s2)
          else
            (- EINVAL, sg0, log (Ev_dev_err d) s1)
      end
  end.

(** [msm_dma_map_sg_attrs], second definition: the pointers are checked
    ([None] stands for a [NULL] or error pointer), then
    [__msm_dma_map_sg] runs. *)
Definition msm_dma_map_sg_attrs (d : option positive)
    (sg0 : option scatterlist) (nents0 : Z) (dr : dma_data_direction)
    (dma_buf : option positive) (attrs : Z) (allocs : list bool) (s : state)
    : Z * option scatterlist * state :=
  match d, sg0, dma_buf with
  | Some d', Some sg', Some b =>
      let '(ret, sg1, s') := __msm_dma_map_sg d' sg' nents0 dr b attrs allocs s in
      (ret, Some sg1, s')
  | _, _, _ => (- EINVAL, sg0, log Ev_pr_err s)
  end.

End Map.


End Legacy.

(** ** Observations on traces *)

(** Calls of the external mapping primitive, and the calls that
    established a mapping (returned a non-zero count). *)
Definition is_map_call (e : event) : bool :=
  match e with Ev_dma_map_sg_attrs _ _ _ _ _ => true | _ => false end.

Definition is_map_ok (e : event) : bool :=
  match e with
  | Ev_dma_map_sg_attrs _ _ _ _ ret => negb (ret =? 0)
  | _ => false
  end.

(** Every mapping the external primitive established is either still
    cached or was torn down once. *)
Definition balanced (s : state) : Prop :=
  count is_map_ok (trace s) = (count is_unmap (trace s) + size (maps s))%nat.

(** ** Concrete collaborators used to run the operations *)

(** A mapping primitive that maps every entry at a fixed address, and one
    that always fails. *)
Definition dma_map_ok (t : list event) (d : positive) (s : scatterlist)
    (n : Z) (dr : dma_data_direction) (attrs : Z) : Z * scatterlist :=
  (n, {| sg_phys := sg_phys s; dma_address := 4096; dma_length := 64 |}).

Definition dma_map_fail (t : list event) (d : positive) (s : scatterlist)
    (n : Z) (dr : dma_data_direction) (attrs : Z) : Z * scatterlist :=
  (0, s).

Definition not_coherent (d : positive) : bool := false.

Definition sg_in : scatterlist :=
  {| sg_phys := 32768; dma_address := 0; dma_length := 0 |}.

(** The state after device 1 mapped buffer 1 once for [DMA_TO_DEVICE] with
    no attribute set, the flag being bit 0. *)
Definition mapped_once : state :=
  (msm_dma_map_sg_attrs 1 dma_map_ok not_coherent 1%positive sg_in 1
     DMA_TO_DEVICE 1%positive 0 empty_state).2.

(** The record that state holds. *)
Definition record_once : msm_iommu_map :=
  {| dev := 1; data := 1;
     sg := {| sg_phys := 32768; dma_address := 4096; dma_length := 64 |};
     dir := DMA_TO_DEVICE; nents := 1; refcount := 2 |}.

(** The state after device 2 mapped buffer 1 as well, for
    [DMA_FROM_DEVICE]. *)
Definition mapped_two : state :=
  (msm_dma_map_sg_attrs 1 dma_map_ok not_coherent 2%positive sg_in 1
     DMA_FROM_DEVICE 1%positive 0 mapped_once).2.

Definition record_two : msm_iommu_map :=
  {| dev := 2; data := 1;
     sg := {| sg_phys := 32768; dma_address := 4096; dma_length := 64 |};
     dir := DMA_FROM_DEVICE; nents := 1; refcount := 2 |}.

(** The kref-based state after device 1 mapped buffer 1 once for
    [DMA_TO_DEVICE] with no attribute set and memory available. *)
Definition legacy_empty : Legacy.state :=
  {| Legacy.iommu_root := ∅; Legacy.maps := ∅; Legacy.trace := [] |}.

Definition legacy_mapped_once : Legacy.state :=
  (Legacy.__msm_dma_map_sg 1 dma_map_ok not_coherent 1%positive sg_in 1
     DMA_TO_DEVICE 1%positive 0 [] legacy_empty).2.

Definition legacy_record_once : Legacy.msm_iommu_map :=
  {| Legacy.dev := 1;
     Legacy.sgl := {| sg_phys := 32768; dma_address := 4096; dma_length := 64 |};
     Legacy.nents := 1; Legacy.ref := 2; Legacy.meta := 1;
     Legacy.dir := DMA_TO_DEVICE; Legacy.map_attrs := 0;
     Legacy.buf_start_addr := 32768 |}.

Definition legacy_meta_once : Legacy.msm_iommu_meta :=
  {| Legacy.buffer := 1; Legacy.meta_ref := 2; Legacy.iommu_maps := [1%positive] |}.

(** The state after device 1 mapped buffer 2 as well. *)
Definition mapped_three : state :=
  (msm_dma_map_sg_attrs 1 dma_map_ok not_coherent 1%positive sg_in 1
     DMA_TO_DEVICE 2%positive 0 mapped_two).2.

Definition record_three : msm_iommu_map :=
  {| dev := 1; data := 2;
     sg := {| sg_phys := 32768; dma_address := 4096; dma_length := 64 |};
     dir := DMA_TO_DEVICE; nents := 1; refcount := 2 |}.

(** * Properties *)

(** ** Integers *)

Lemma to_int_id (z : Z) : INT_MIN ≤ z ≤ INT_MAX → to_int z = z.
Proof.
  unfold INT_MIN, INT_MAX, to_int. intros H.
  rewrite Z.mod_small; lia.
Qed.

Lemma to_int_range (z : Z) : INT_MIN ≤ to_int z ≤ INT_MAX.
Proof.
  unfold INT_MIN, INT_MAX, to_int.
  pose proof (Z.mod_pos_bound (z + 2 ^ 31) (2 ^ 32)). lia.
Qed.

(** [to_int] keeps the parity of its argument. *)
Lemma to_int_wrap (z : Z) : ∃ q, to_int z = z - 2 ^ 32 * q.
Proof.
  unfold to_int. exists ((z + 2 ^ 31) / 2 ^ 32).
  pose proof (Z.div_mod (z + 2 ^ 31) (2 ^ 32)). lia.
Qed.

(** ** The intrusive lists *)

Lemma default_list_add (p h k : positive) (L : gmap positive (list positive)) :
  default [] (list_add p h L !! k) =
  if decide (k = h) then p :: default [] (L !! h) else default [] (L !! k).
Proof.
  unfold list_add. destruct (decide (k = h)) as [->|Hne].
  - by rewrite lookup_insert_eq.
  - by rewrite lookup_insert_ne.
Qed.

Lemma default_list_del (p k : positive) (L : gmap positive (list positive)) :
  default [] (list_del p L !! k) = filter (λ q, q ≠ p) (default [] (L !! k)).
Proof.
  unfold list_del. rewrite lookup_fmap. by destruct (L !! k).
Qed.

(** ** Lookup *)

Lemma lookup_in_Some h l d p m :
  lookup_in h l d = Some (p, m) → p ∈ l ∧ h !! p = Some m ∧ dev m = d.
Proof.
  induction l as [|q l IH]; simpl; [done|].
  destruct (h !! q) as [n|] eqn:Hq.
  - destruct (decide (dev n = d)) as [Hd|Hd].
    + intros [= <- <-]. split; [left|done].
    + intros H. destruct (IH H) as (? & ? & ?). split; [by right|done].
  - intros H. destruct (IH H) as (? & ? & ?). split; [by right|done].
Qed.

Lemma lookup_in_None h l d :
  lookup_in h l d = None ↔ ∀ p m, p ∈ l → h !! p = Some m → dev m ≠ d.
Proof.
  induction l as [|q l IH]; simpl.
  - split; [|done]. intros _ p m Hp. by apply elem_of_nil in Hp.
  - destruct (h !! q) as [n|] eqn:Hq.
    + destruct (decide (dev n = d)) as [Hd|Hd].
      * split; [done|]. intros H. exfalso. eapply H; [left|done..].
      * rewrite IH. split.
        -- intros H p m [->|Hp]%elem_of_cons Hm; [congruence|eauto].
        -- intros H p m Hp. apply H. by right.
    + rewrite IH. split.
      * intros H p m [->|Hp]%elem_of_cons Hm; [congruence|eauto].
      * intros H p m Hp. apply H. by right.
Qed.

(** Updating the record that the lookup finds, keeping its device, makes
    the lookup find the updated record. *)
Lemma lookup_in_insert h l d p m m' :
  lookup_in h l d = Some (p, m) → dev m' = dev m →
  lookup_in (<[p := m']> h) l d = Some (p, m').
Proof.
  intros Hl Hd. induction l as [|q l IH]; simpl in *; [done|].
  destruct (decide (q = p)) as [->|Hne].
  - rewrite lookup_insert_eq.
    destruct (h !! p) as [n|] eqn:Hp.
    + destruct (decide (dev n = d)) as [Hn|Hn].
      * injection Hl as Hnm. subst n. rewrite decide_True; [done|congruence].
      * destruct (lookup_in_Some _ _ _ _ _ Hl) as (_ & Hm & Hdm). congruence.
    + destruct (lookup_in_Some _ _ _ _ _ Hl) as (_ & Hm & _). congruence.
  - rewrite lookup_insert_ne; [|done].
    destruct (h !! q) as [n|]; [|by apply IH].
    destruct (decide (dev n = d)); [|by apply IH].
    injection Hl as -> ->. done.
Qed.

(** ** The shape of the indexes is kept *)

Lemma wf_empty_state : wf empty_state.
Proof.
  split; unfold data_list, dev_list; simpl.
  - intros p m H. by rewrite lookup_empty in H.
  - intros p m H. by rewrite lookup_empty in H.
  - intros b p. rewrite lookup_empty. simpl. by intros ?%elem_of_nil.
  - intros b p. rewrite lookup_empty. simpl. by intros ?%elem_of_nil.
  - intros b. rewrite lookup_empty. apply NoDup_nil_2.
  - intros b. rewrite lookup_empty. apply NoDup_nil_2.
  - intros p q m n H. by rewrite lookup_empty in H.
Qed.

(** Changing a record in place, keeping its device and buffer. *)
Lemma wf_update s s' p m m' :
  wf s → maps s !! p = Some m → dev m' = dev m → data m' = data m →
  maps s' = <[p := m']> (maps s) → map_list s' = map_list s →
  iommu_map_list s' = iommu_map_list s → wf s'.
Proof.
  intros [] Hp Hdev Hdata Hm Hl Hd.
  split; unfold data_list, dev_list in *; rewrite ?Hm, ?Hl, ?Hd.
  - intros q n. destruct (decide (q = p)) as [->|Hne].
    + rewrite lookup_insert_eq. intros [= <-]. rewrite Hdata. eauto.
    + rewrite lookup_insert_ne by done. eauto.
  - intros q n. destruct (decide (q = p)) as [->|Hne].
    + rewrite lookup_insert_eq. intros [= <-]. rewrite Hdev. eauto.
    + rewrite lookup_insert_ne by done. eauto.
  - intros b q Hq. destruct (wf_data_live0 b q Hq) as (n & Hn & Hb).
    destruct (decide (q = p)) as [->|Hne].
    + rewrite lookup_insert_eq. exists m'. split; [done|]. congruence.
    + rewrite lookup_insert_ne by done. eauto.
  - intros d q Hq. destruct (wf_dev_live0 d q Hq) as (n & Hn & Hb).
    destruct (decide (q = p)) as [->|Hne].
    + rewrite lookup_insert_eq. exists m'. split; [done|]. congruence.
    + rewrite lookup_insert_ne by done. eauto.
  - done.
  - done.
  - intros q1 q2 n1 n2.
    destruct (decide (q1 = p)) as [->|Hne1]; destruct (decide (q2 = p)) as [->|Hne2];
      rewrite ?lookup_insert_eq, ?lookup_insert_ne by done; try done.
    + intros [= <-] H2 ? ?. apply (wf_key0 p q2 m n2); congruence.
    + intros H1 [= <-] ? ?. apply (wf_key0 q1 p n1 m); congruence.
    + apply wf_key0.
Qed.

(** Unlinking a record from both lists and releasing it. *)
Lemma wf_delete s s' p :
  wf s → maps s' = delete p (maps s) →
  map_list s' = list_del p (map_list s) →
  iommu_map_list s' = list_del p (iommu_map_list s) → wf s'.
Proof.
  intros [] Hm Hl Hd.
  split; unfold data_list, dev_list in *;
    rewrite ?Hm, ?Hl, ?Hd; try setoid_rewrite default_list_del.
  - intros q n [Hne Hq]%lookup_delete_Some.
    apply list_elem_of_filter. eauto.
  - intros q n [Hne Hq]%lookup_delete_Some.
    apply list_elem_of_filter. eauto.
  - intros b q [Hne Hq]%list_elem_of_filter.
    destruct (wf_data_live0 b q Hq) as (n & Hn & Hb).
    exists n. by rewrite lookup_delete_ne.
  - intros d q [Hne Hq]%list_elem_of_filter.
    destruct (wf_dev_live0 d q Hq) as (n & Hn & Hb).
    exists n. by rewrite lookup_delete_ne.
  - intros b. by apply NoDup_filter.
  - intros d. by apply NoDup_filter.
  - intros q1 q2 n1 n2 [_ H1]%lookup_delete_Some [_ H2]%lookup_delete_Some.
    by apply wf_key0.
Qed.

(** Linking a fresh record for a pair that has none into both lists. *)
Lemma wf_insert s s' p m :
  wf s → maps s !! p = None →
  msm_iommu_map_lookup s (data m) (dev m) = None →
  maps s' = <[p := m]> (maps s) →
  map_list s' = list_add p (data m) (map_list s) →
  iommu_map_list s' = list_add p (dev m) (iommu_map_list s) → wf s'.
Proof.
  intros [] Hp Hlook Hm Hl Hd.
  assert (Hfresh_data : ∀ b, p ∉ data_list s b).
  { intros b Hin. destruct (wf_data_live0 b p Hin) as (n & Hn & _). congruence. }
  assert (Hfresh_dev : ∀ d, p ∉ dev_list s d).
  { intros d Hin. destruct (wf_dev_live0 d p Hin) as (n & Hn & _). congruence. }
  unfold msm_iommu_map_lookup in Hlook. rewrite lookup_in_None in Hlook.
  split; unfold data_list, dev_list in *;
    rewrite ?Hm, ?Hl, ?Hd; try setoid_rewrite default_list_add.
  - intros q n. destruct (decide (q = p)) as [->|Hne].
    + rewrite lookup_insert_eq. intros [= <-]. rewrite decide_True by done. left.
    + rewrite lookup_insert_ne by done. intros Hq.
      case_decide as Hb; [rewrite <- Hb; right|]; eauto.
  - intros q n. destruct (decide (q = p)) as [->|Hne].
    + rewrite lookup_insert_eq. intros [= <-]. rewrite decide_True by done. left.
    + rewrite lookup_insert_ne by done. intros Hq.
      case_decide as Hb; [rewrite <- Hb; right|]; eauto.
  - intros b q. case_decide as Hb.
    + intros [->|Hq]%elem_of_cons.
      * exists m. by rewrite lookup_insert_eq.
      * destruct (wf_data_live0 _ q Hq) as (n & Hn & Hdn).
        exists n. rewrite lookup_insert_ne by congruence. split; congruence.
    + intros Hq. destruct (wf_data_live0 _ q Hq) as (n & Hn & Hdn).
      exists n. rewrite lookup_insert_ne by congruence. done.
  - intros d q. case_decide as Hb.
    + intros [->|Hq]%elem_of_cons.
      * exists m. by rewrite lookup_insert_eq.
      * destruct (wf_dev_live0 _ q Hq) as (n & Hn & Hdn).
        exists n. rewrite lookup_insert_ne by congruence. split; congruence.
    + intros Hq. destruct (wf_dev_live0 _ q Hq) as (n & Hn & Hdn).
      exists n. rewrite lookup_insert_ne by congruence. done.
  - intros b. case_decide; [|done]. apply NoDup_cons. split; [apply Hfresh_data|done].
  - intros d. case_decide; [|done]. apply NoDup_cons. split; [apply Hfresh_dev|done].
  - intros q1 q2 n1 n2.
    destruct (decide (q1 = p)) as [->|Hne1]; destruct (decide (q2 = p)) as [->|Hne2];
      rewrite ?lookup_insert_eq, ?lookup_insert_ne by done; try done.
    + intros [= <-] H2 Hdv Hdt. exfalso.
      apply (Hlook q2 n2); [|done|done]. rewrite Hdt. eauto.
    + intros H1 [= <-] Hdv Hdt. exfalso.
      apply (Hlook q1 n1); [|done|done]. rewrite <- Hdt. eauto.
    + apply wf_key0.
Qed.

Lemma wf_msm_iommu_map_free p s : wf s → wf (msm_iommu_map_free p s).
Proof.
  intros Hwf. unfold msm_iommu_map_free.
  destruct (maps s !! p); [|done].
  by eapply (wf_delete s _ p).
Qed.

Lemma wf_free_all l s : wf s → wf (free_all l s).
Proof.
  revert s. induction l as [|p l IH]; intros s Hwf; simpl; [done|].
  apply IH. by apply wf_msm_iommu_map_free.
Qed.

Lemma wf_msm_dma_unmap_sg d b s : wf s → wf (msm_dma_unmap_sg d b s).2.
Proof.
  intros Hwf. unfold msm_dma_unmap_sg.
  destruct (msm_iommu_map_lookup s b d) as [[p m]|] eqn:Hl; [|done].
  apply lookup_in_Some in Hl as (_ & Hp & _).
  set (s1 := State _ _ _ _).
  assert (wf s1) by (by apply (wf_update s s1 p m (set_refcount (to_int (refcount m - 1)) m))).
  case_decide; simpl; [by apply wf_msm_iommu_map_free|done].
Qed.

Lemma wf_msm_dma_unmap_all_for_dev d s :
  wf s → wf (msm_dma_unmap_all_for_dev d s).2.
Proof. intros Hwf. by apply wf_free_all. Qed.

Lemma wf_buf_freed_pass l locks retry s :
  wf s → wf (buf_freed_pass l locks retry s).1.1.
Proof.
  revert locks s. induction l as [|p l IH]; intros locks s Hwf; simpl; [done|].
  destruct locks as [|[] locks]; simpl; [| |done];
    by apply IH, wf_msm_iommu_map_free.
Qed.

Lemma wf_buf_freed_loop fuel b locks retry s s' :
  wf s → buf_freed_loop fuel b locks retry s = Some s' → wf s'.
Proof.
  revert locks retry s. induction fuel as [|fuel IH]; intros locks retry s Hwf;
    simpl; [done|].
  pose proof (wf_buf_freed_pass (data_list s b) locks retry s Hwf) as Hpass.
  destruct (buf_freed_pass (data_list s b) locks retry s) as [[s1 locks1] retry1].
  case_decide; [by intros [= <-]|]. by apply IH.
Qed.

Section CacheFacts.

Variable DMA_ATTR_NO_DELAYED_UNMAP : Z.
Variable dma_map_sg_attrs :
  list event → positive → scatterlist → Z → dma_data_direction → Z →
  Z * scatterlist.
Variable is_device_dma_coherent : positive → bool.

Local Abbreviation Map :=
  (msm_dma_map_sg_attrs DMA_ATTR_NO_DELAYED_UNMAP dma_map_sg_attrs
     is_device_dma_coherent).
Local Abbreviation New_map :=
  (new_map DMA_ATTR_NO_DELAYED_UNMAP dma_map_sg_attrs).
Local Abbreviation Map_n :=
  (map_n DMA_ATTR_NO_DELAYED_UNMAP dma_map_sg_attrs is_device_dma_coherent).

Lemma kmalloc_nofail_fresh s : maps s !! kmalloc_nofail s = None.
Proof.
  unfold kmalloc_nofail. apply not_elem_of_dom, is_fresh.
Qed.

Lemma wf_msm_dma_map_sg_attrs d sg0 n0 dr b attrs s :
  wf s → wf (Map d sg0 n0 dr b attrs s).2.
Proof.
  intros Hwf. unfold msm_dma_map_sg_attrs.
  destruct (msm_iommu_map_lookup s b d) as [[p m]|] eqn:Hl.
  - apply lookup_in_Some in Hl as (_ & Hp & _). simpl.
    by apply (wf_update s _ p m (set_refcount (to_int (refcount m + 1)) m)).
  - destruct (dma_map_sg_attrs _ _ _ _ _ _) as [n sg1].
    case_decide; simpl.
    + by destruct Hwf.
    + by eapply (wf_insert s _ (kmalloc_nofail s) (Msm_iommu_map d b _ dr n _));
        [|apply kmalloc_nofail_fresh|..].
Qed.

Lemma step_wf s s' :
  step DMA_ATTR_NO_DELAYED_UNMAP dma_map_sg_attrs is_device_dma_coherent s s' →
  wf s → wf s'.
Proof.
  intros [] Hwf.
  - by apply wf_msm_dma_map_sg_attrs.
  - by apply wf_msm_dma_unmap_sg.
  - by apply wf_msm_dma_unmap_all_for_dev.
  - by eapply wf_buf_freed_loop.
Qed.

Lemma reachable_wf s :
  reachable DMA_ATTR_NO_DELAYED_UNMAP dma_map_sg_attrs is_device_dma_coherent s →
  wf s.
Proof.
  induction 1 as [|s s' _ IH Hstep]; [apply wf_empty_state|].
  by eapply step_wf.
Qed.

(** *** What one call of [msm_dma_map_sg_attrs] does *)

Lemma map_hit d sg0 n0 dr b attrs s p m :
  msm_iommu_map_lookup s b d = Some (p, m) →
  Map d sg0 n0 dr b attrs s =
  (n0,
   {| sg_phys := sg_phys sg0; dma_address := dma_address (sg m);
      dma_length := dma_length (sg m) |},
   {| maps := <[p := set_refcount (to_int (refcount m + 1)) m]> (maps s);
      map_list := map_list s;
      iommu_map_list := iommu_map_list s;
      trace := if is_device_dma_coherent d then Ev_dmb :: trace s
               else trace s |}).
Proof. intros H. unfold msm_dma_map_sg_attrs. by rewrite H. Qed.

Lemma map_miss_failure d sg0 n0 dr b attrs s :
  msm_iommu_map_lookup s b d = None →
  (dma_map_sg_attrs (trace s) d sg0 n0 dr attrs).1 = 0 →
  Map d sg0 n0 dr b attrs s =
  (0, (dma_map_sg_attrs (trace s) d sg0 n0 dr attrs).2,
   {| maps := maps s; map_list := map_list s;
      iommu_map_list := iommu_map_list s;
      trace := Ev_dma_map_sg_attrs d n0 dr attrs 0 :: trace s |}).
Proof.
  intros H Hf. unfold msm_dma_map_sg_attrs. rewrite H.
  destruct (dma_map_sg_attrs _ _ _ _ _ _) as [n sg1]. simpl in Hf. subst n.
  by rewrite decide_True.
Qed.

Lemma map_miss_success d sg0 n0 dr b attrs s :
  msm_iommu_map_lookup s b d = None →
  (dma_map_sg_attrs (trace s) d sg0 n0 dr attrs).1 ≠ 0 →
  Map d sg0 n0 dr b attrs s =
  ((dma_map_sg_attrs (trace s) d sg0 n0 dr attrs).1,
   (dma_map_sg_attrs (trace s) d sg0 n0 dr attrs).2,
   {| maps := <[kmalloc_nofail s := New_map d sg0 n0 dr b attrs s]> (maps s);
      map_list := list_add (kmalloc_nofail s) b (map_list s);
      iommu_map_list := list_add (kmalloc_nofail s) d (iommu_map_list s);
      trace := Ev_dma_map_sg_attrs d n0 dr attrs
                 (dma_map_sg_attrs (trace s) d sg0 n0 dr attrs).1 :: trace s |}).
Proof.
  intros H Hf. unfold msm_dma_map_sg_attrs, new_map. rewrite H.
  destruct (dma_map_sg_attrs _ _ _ _ _ _) as [n sg1]. simpl in *.
  by rewrite decide_False.
Qed.

(** After a successful miss the lookup finds the new record. *)
Lemma map_miss_lookup d sg0 n0 dr b attrs s :
  msm_iommu_map_lookup s b d = None →
  (dma_map_sg_attrs (trace s) d sg0 n0 dr attrs).1 ≠ 0 →
  msm_iommu_map_lookup (Map d sg0 n0 dr b attrs s).2 b d =
  Some (kmalloc_nofail s, New_map d sg0 n0 dr b attrs s).
Proof.
  intros H Hf. rewrite map_miss_success by done.
  unfold msm_iommu_map_lookup, data_list. simpl.
  rewrite default_list_add, decide_True by done. simpl.
  rewrite lookup_insert_eq. simpl. by rewrite decide_True.
Qed.

Lemma Z_land_pow2 (a k : Z) :
  0 ≤ k → Z.land a (2 ^ k) = if Z.testbit a k then 2 ^ k else 0.
Proof.
  intros Hk. apply Z.bits_inj'. intros n Hn.
  rewrite Z.land_spec, Z.pow2_bits_eqb by done.
  destruct (Z.eqb_spec k n) as [->|Hne].
  - destruct (Z.testbit a n) eqn:E.
    + by rewrite Z.pow2_bits_true.
    + by rewrite Z.bits_0.
  - rewrite andb_false_r.
    destruct (Z.testbit a k); [|by rewrite Z.bits_0].
    by rewrite Z.pow2_bits_false.
Qed.

(** The count a miss starts from is [2 - not_lazy], whatever the mask. *)
Lemma refcount_init d sg0 n0 dr b attrs s :
  msm_iommu_map_lookup s b d = None →
  (dma_map_sg_attrs (trace s) d sg0 n0 dr attrs).1 ≠ 0 →
  ∃ p m,
    msm_iommu_map_lookup (Map d sg0 n0 dr b attrs s).2 b d = Some (p, m) ∧
    maps s !! p = None ∧
    refcount m = to_int (2 - not_lazy DMA_ATTR_NO_DELAYED_UNMAP attrs).
Proof.
  intros H Hf. exists (kmalloc_nofail s), (New_map d sg0 n0 dr b attrs s).
  split; [by apply map_miss_lookup|]. split; [apply kmalloc_nofail_fresh|done].
Qed.

(** With the flag clear the count starts at 2. *)
Lemma refcount_init_lazy d sg0 n0 dr b attrs s :
  Z.land attrs DMA_ATTR_NO_DELAYED_UNMAP = 0 →
  msm_iommu_map_lookup s b d = None →
  (dma_map_sg_attrs (trace s) d sg0 n0 dr attrs).1 ≠ 0 →
  ∃ p m,
    msm_iommu_map_lookup (Map d sg0 n0 dr b attrs s).2 b d = Some (p, m) ∧
    refcount m = 2.
Proof.
  intros Hz H Hf. destruct (refcount_init d sg0 n0 dr b attrs s H Hf)
    as (p & m & Hl & _ & Hr).
  exists p, m. split; [done|]. rewrite Hr. unfold not_lazy. by rewrite Hz.
Qed.

(** *** Misses and hits *)

(** C6: on a miss, when the external mapping primitive fails (returns
    0), [msm_dma_map_sg_attrs] returns that failure and the records and
    both indexes are exactly what they were. *)
Theorem C6_miss_failure_leaves_indexes d sg0 n0 dr b attrs s :
  msm_iommu_map_lookup s b d = None →
  (dma_map_sg_attrs (trace s) d sg0 n0 dr attrs).1 = 0 →
  (Map d sg0 n0 dr b attrs s).1.1 = 0 ∧
  maps (Map d sg0 n0 dr b attrs s).2 = maps s ∧
  map_list (Map d sg0 n0 dr b attrs s).2 = map_list s ∧
  iommu_map_list (Map d sg0 n0 dr b attrs s).2 = iommu_map_list s.
Proof. intros H Hf. by rewrite map_miss_failure. Qed.

(** C10: on a miss, the allocation of the record cannot fail, so the
    call returns a failure (0) exactly when the external mapping
    primitive failed; when the primitive succeeded a record is created
    and linked into both indexes. *)
Theorem C10_miss_fails_iff_primitive_fails d sg0 n0 dr b attrs s :
  msm_iommu_map_lookup s b d = None →
  ((Map d sg0 n0 dr b attrs s).1.1 = 0 ↔
   (dma_map_sg_attrs (trace s) d sg0 n0 dr attrs).1 = 0) ∧
  ((dma_map_sg_attrs (trace s) d sg0 n0 dr attrs).1 ≠ 0 →
   ∃ p m, maps s !! p = None ∧
     maps (Map d sg0 n0 dr b attrs s).2 !! p = Some m ∧
     dev m = d ∧ data m = b ∧
     p ∈ data_list (Map d sg0 n0 dr b attrs s).2 b ∧
     p ∈ dev_list (Map d sg0 n0 dr b attrs s).2 d).
Proof.
  intros H. split.
  - destruct (decide ((dma_map_sg_attrs (trace s) d sg0 n0 dr attrs).1 = 0))
      as [Hf|Hf].
    + by rewrite map_miss_failure.
    + by rewrite map_miss_success.
  - intros Hf. exists (kmalloc_nofail s), (New_map d sg0 n0 dr b attrs s).
    rewrite map_miss_success by done. unfold data_list, dev_list. simpl.
    rewrite lookup_insert_eq, !default_list_add, !decide_True by done.
    repeat split; try done; try apply kmalloc_nofail_fresh; left.
Qed.

(** C3, the first definition of [msm_dma_map_sg_attrs] (the list-based
    one): when a record for (device, buffer) exists it compares nothing;
    whatever direction and attribute flags are passed, it adds one to the
    record's refcount, hands the cached address range to the caller and
    returns the caller's [nents], so a request that differs from the
    cached record is not rejected.  The record's other fields, every
    other record and both indexes are unchanged.  The second definition,
    through [__msm_dma_map_sg], does compare and rejects with [-EINVAL]
    (see the kref-based path). *)
Theorem C3_hit_takes_reference_without_check d sg0 n0 dr b attrs s p m :
  msm_iommu_map_lookup s b d = Some (p, m) →
  (Map d sg0 n0 dr b attrs s).1.1 = n0 ∧
  dma_address (Map d sg0 n0 dr b attrs s).1.2 = dma_address (sg m) ∧
  dma_length (Map d sg0 n0 dr b attrs s).1.2 = dma_length (sg m) ∧
  maps (Map d sg0 n0 dr b attrs s).2 =
    <[p := set_refcount (to_int (refcount m + 1)) m]> (maps s) ∧
  map_list (Map d sg0 n0 dr b attrs s).2 = map_list s ∧
  iommu_map_list (Map d sg0 n0 dr b attrs s).2 = iommu_map_list s.
Proof. intros H. by rewrite (map_hit _ _ _ _ _ _ _ _ _ H). Qed.

End CacheFacts.

(** C7: when the buffer's index holds no record of the device,
    [msm_dma_unmap_sg] changes nothing: records, refcounts, both indexes
    and the trace of external calls are what they were, so the external
    unmap primitive was not invoked. *)
Theorem C7_unmap_absent_is_noop d b s :
  ¬ in_buffer_index s d b → msm_dma_unmap_sg d b s = (tt, s).
Proof.
  intros Habs. unfold msm_dma_unmap_sg.
  destruct (msm_iommu_map_lookup s b d) as [[p m]|] eqn:Hl; [|done].
  exfalso. apply Habs. apply lookup_in_Some in Hl as (? & ? & ?).
  by exists p, m.
Qed.

(** ** Releasing records *)

Lemma maps_msm_iommu_map_free p s :
  maps (msm_iommu_map_free p s) = delete p (maps s).
Proof.
  unfold msm_iommu_map_free. destruct (maps s !! p) eqn:E; simpl; [done|].
  symmetry. by apply delete_id.
Qed.

Lemma msm_iommu_map_free_live p m s :
  maps s !! p = Some m →
  msm_iommu_map_free p s =
  {| maps := delete p (maps s);
     map_list := list_del p (map_list s);
     iommu_map_list := list_del p (iommu_map_list s);
     trace := unmap_event m :: trace s |}.
Proof. intros H. unfold msm_iommu_map_free. by rewrite H. Qed.

Lemma count_cons f e t :
  count f (e :: t) = if f e then S (count f t) else count f t.
Proof. unfold count. simpl. by destruct (f e). Qed.

Lemma maps_free_all l s q :
  maps (free_all l s) !! q = if decide (q ∈ l) then None else maps s !! q.
Proof.
  revert s. induction l as [|p l IH]; intros s.
  - case_decide as H; [by apply elem_of_nil in H|done].
  - cbn [free_all foldl]. fold (free_all l (msm_iommu_map_free p s)).
    rewrite IH, maps_msm_iommu_map_free.
    destruct (decide (q ∈ l)) as [Hq|Hq].
    + rewrite decide_True; [done|by right].
    + destruct (decide (q = p)) as [->|Hne].
      * rewrite lookup_delete_eq. rewrite decide_True; [done|left].
      * rewrite lookup_delete_ne by done. rewrite decide_False; [done|].
        by intros [?|?]%elem_of_cons.
Qed.

Lemma trace_free_all_mono l s e : e ∈ trace s → e ∈ trace (free_all l s).
Proof.
  revert s. induction l as [|p l IH]; intros s He; simpl; [done|].
  apply IH. unfold msm_iommu_map_free. destruct (maps s !! p); [by right|done].
Qed.

(** Every live record handed to [free_all] has its mapping torn down. *)
Lemma trace_free_all l s p m :
  p ∈ l → maps s !! p = Some m → unmap_event m ∈ trace (free_all l s).
Proof.
  revert s. induction l as [|a l IH]; intros s Hp Hm; [by apply elem_of_nil in Hp|].
  simpl. destruct (decide (a = p)) as [->|Hne].
  - apply trace_free_all_mono. rewrite (msm_iommu_map_free_live _ _ _ Hm). left.
  - apply IH.
    + apply elem_of_cons in Hp as [?|?]; [congruence|done].
    + rewrite maps_msm_iommu_map_free. by rewrite lookup_delete_ne.
Qed.

Lemma count_warning_free_all l s :
  count is_warning (trace (free_all l s)) = count is_warning (trace s).
Proof.
  revert s. induction l as [|p l IH]; intros s; simpl; [done|].
  rewrite IH. unfold msm_iommu_map_free. by destruct (maps s !! p).
Qed.

Lemma filter_all {A} (P : A → Prop) `{!∀ x, Decision (P x)} (k : list A) :
  (∀ x, x ∈ k → P x) → filter P k = k.
Proof.
  induction k as [|x k IH]; intros HP; [done|].
  rewrite filter_cons_True by (apply HP; left).
  f_equal. apply IH. intros y Hy. apply HP. by right.
Qed.

Lemma filter_none {A} (P : A → Prop) `{!∀ x, Decision (P x)} (k : list A) :
  (∀ x, x ∈ k → ¬ P x) → filter P k = [].
Proof.
  induction k as [|x k IH]; intros HP; [done|].
  rewrite filter_cons_False by (apply HP; left).
  apply IH. intros y Hy. apply HP. by right.
Qed.

(** Releasing a duplicate-free list of live records filters them out of
    every list and calls the external unmap primitive once for each. *)
Lemma free_all_lists l s :
  NoDup l → (∀ p, p ∈ l → is_Some (maps s !! p)) →
  (∀ b, data_list (free_all l s) b = filter (λ q, q ∉ l) (data_list s b)) ∧
  (∀ d, dev_list (free_all l s) d = filter (λ q, q ∉ l) (dev_list s d)) ∧
  count is_unmap (trace (free_all l s)) =
    (count is_unmap (trace s) + length l)%nat.
Proof.
  intros Hnd. revert s. induction Hnd as [|p l' Hp Hnd IH]; intros s0 Hlive.
  - simpl. repeat split; [..|lia]; intros k; symmetry;
      apply filter_all; intros q _ ?%elem_of_nil; done.
  - simpl. destruct (Hlive p) as [m Hm]; [left|].
    destruct (IH (msm_iommu_map_free p s0)) as (Hd & Hv & Hc).
    { intros q Hq. rewrite maps_msm_iommu_map_free, lookup_delete_ne.
      - apply Hlive. by right.
      - intros ->. done. }
    rewrite (msm_iommu_map_free_live _ _ _ Hm) in Hd, Hv, Hc |- *.
    unfold data_list, dev_list in *.
    cbn [maps map_list iommu_map_list trace] in *.
    repeat split.
    + intros b. rewrite Hd, default_list_del, list_filter_filter.
      apply list_filter_iff. intros q. rewrite not_elem_of_cons. tauto.
    + intros d. rewrite Hv, default_list_del, list_filter_filter.
      apply list_filter_iff. intros q. rewrite not_elem_of_cons. tauto.
    + rewrite Hc, count_cons. simpl. lia.
Qed.

(** What a released record looks like afterwards. *)
Lemma free_all_released l s p m :
  NoDup l → (∀ q, q ∈ l → is_Some (maps s !! q)) →
  p ∈ l → maps s !! p = Some m →
  maps (free_all l s) !! p = None ∧
  (∀ b, p ∉ data_list (free_all l s) b) ∧
  (∀ d, p ∉ dev_list (free_all l s) d) ∧
  unmap_event m ∈ trace (free_all l s).
Proof.
  intros Hnd Hlive Hp Hm.
  destruct (free_all_lists l s Hnd Hlive) as (Hd & Hv & _).
  repeat split.
  - by rewrite maps_free_all, decide_True.
  - intros b. rewrite Hd. by intros [? _]%list_elem_of_filter.
  - intros d. rewrite Hv. by intros [? _]%list_elem_of_filter.
  - by eapply trace_free_all.
Qed.

(** *** Device teardown *)

(** C4: after [msm_dma_unmap_all_for_dev] for device [D], the Device
    Mapping Index of [D] is empty and no Buffer Mapping Index holds a
    record of [D]; every record that was in the device's index, whatever
    its refcount, is gone from the heap and from every list, and the
    external unmap primitive was called for it, once per record. *)
Theorem C4_unmap_all_for_dev D s :
  wf s →
  dev_list (msm_dma_unmap_all_for_dev D s).2 D = [] ∧
  (∀ b, ¬ in_buffer_index (msm_dma_unmap_all_for_dev D s).2 D b) ∧
  (∀ p m, p ∈ dev_list s D → maps s !! p = Some m →
     maps (msm_dma_unmap_all_for_dev D s).2 !! p = None ∧
     (∀ b, p ∉ data_list (msm_dma_unmap_all_for_dev D s).2 b) ∧
     (∀ d, p ∉ dev_list (msm_dma_unmap_all_for_dev D s).2 d) ∧
     unmap_event m ∈ trace (msm_dma_unmap_all_for_dev D s).2) ∧
  count is_unmap (trace (msm_dma_unmap_all_for_dev D s).2) =
    (count is_unmap (trace s) + length (dev_list s D))%nat.
Proof.
  intros Hwf. unfold msm_dma_unmap_all_for_dev. simpl.
  assert (Hnd : NoDup (dev_list s D)) by apply Hwf.
  assert (Hlive : ∀ q, q ∈ dev_list s D → is_Some (maps s !! q)).
  { intros q Hq. destruct (wf_dev_live s Hwf D q Hq) as (n & Hn & _). eauto. }
  destruct (free_all_lists _ s Hnd Hlive) as (Hd & Hv & Hc).
  split; [|split; [|split]].
  - rewrite Hv. apply filter_none. intros q Hq. by intros [].
  - intros b (q & n & Hq & Hn & Hdn).
    rewrite Hd in Hq. apply list_elem_of_filter in Hq as [Hnot _].
    rewrite maps_free_all, decide_False in Hn by done.
    apply Hnot. rewrite <- Hdn. by apply Hwf.
  - intros p m Hp Hm. by apply free_all_released.
  - done.
Qed.

(** *** Buffer teardown *)

Lemma buf_freed_pass_spec l locks s :
  ∃ l1 l2 locks', l = l1 ++ l2 ∧
    ((l2 = [] ∧ buf_freed_pass l locks 0 s = (free_all l1 s, locks', 0)) ∨
     (buf_freed_pass l locks 0 s = (free_all l1 s, locks', 1) ∧
      (length locks' < length locks)%nat)).
Proof.
  revert locks s. induction l as [|p l IH]; intros locks s.
  - exists [], [], locks. split; [done|]. by left.
  - destruct locks as [|[] locks].
    + destruct (IH [] (msm_iommu_map_free p s)) as (l1 & l2 & locks' & -> & Hc).
      exists (p :: l1), l2, locks'. split; [done|]. simpl.
      destruct Hc as [[-> Hc]|[Hc Hlen]]; [left|right]; by rewrite Hc.
    + destruct (IH locks (msm_iommu_map_free p s)) as (l1 & l2 & locks' & -> & Hc).
      exists (p :: l1), l2, locks'. split; [done|]. simpl.
      destruct Hc as [[-> Hc]|[Hc Hlen]]; [left|right]; rewrite Hc;
        [done|split; [done|lia]].
    + exists [], (p :: l), locks. split; [done|]. right. simpl. split; [done|lia].
Qed.

(** With more fuel than scheduled lock failures the loop of
    [msm_dma_buf_freed] ends, having released the records of the buffer's
    index, each once. *)
Lemma buf_freed_loop_spec fuel b locks s :
  wf s → (length locks < fuel)%nat →
  ∃ L, buf_freed_loop fuel b locks 0 s = Some (free_all L s) ∧
       L ≡ₚ data_list s b.
Proof.
  revert locks s. induction fuel as [|fuel IH]; intros locks s Hwf Hlen; [lia|].
  simpl.
  destruct (buf_freed_pass_spec (data_list s b) locks s)
    as (l1 & l2 & locks' & Hl & [[-> Hc]|[Hc Hlen']]).
  - rewrite Hc. rewrite decide_True by done.
    exists l1. split; [done|]. by rewrite Hl, app_nil_r.
  - rewrite Hc. rewrite decide_False by done.
    change (to_int (1 - 1)) with 0.
    assert (Hnd : NoDup (l1 ++ l2)) by (rewrite <- Hl; apply Hwf).
    apply NoDup_app in Hnd as (Hnd1 & Hdisj & Hnd2).
    assert (Hlive : ∀ q, q ∈ l1 → is_Some (maps s !! q)).
    { intros q Hq. destruct (wf_data_live s Hwf b q) as (n & Hn & _); [|eauto].
      rewrite Hl. apply elem_of_app. by left. }
    destruct (IH locks' (free_all l1 s)) as (L & HL & Hperm);
      [by apply wf_free_all|lia|].
    exists (l1 ++ L). split.
    + rewrite HL. unfold free_all. by rewrite foldl_app.
    + rewrite Hl. apply Permutation_app_head. rewrite Hperm.
      destruct (free_all_lists l1 s Hnd1 Hlive) as (Hd & _ & _).
      rewrite Hd, Hl, filter_app.
      rewrite filter_none by (intros q Hq []; done).
      rewrite filter_all; [done|]. intros q Hq Hq1. by apply (Hdisj q).
Qed.

(** C5 (amended): for every schedule of [mutex_trylock] outcomes
    [msm_dma_buf_freed] completes, and then the Buffer Mapping Index of
    the buffer is empty and no Device Mapping Index holds a record of it;
    every record the index held, whatever its refcount, is released and
    the external unmap primitive was called for it, once per record.
    [msm_dma_buf_freed] reports no warning. *)
Theorem C5_buf_freed_releases_without_warning b locks s :
  wf s →
  ∃ s', msm_dma_buf_freed (S (length locks)) b locks s = Some s' ∧
    data_list s' b = [] ∧
    (∀ d, ¬ in_device_index s' d b) ∧
    (∀ p m, p ∈ data_list s b → maps s !! p = Some m →
       maps s' !! p = None ∧ (∀ b', p ∉ data_list s' b') ∧
       (∀ d, p ∉ dev_list s' d) ∧ unmap_event m ∈ trace s') ∧
    count is_unmap (trace s') =
      (count is_unmap (trace s) + length (data_list s b))%nat ∧
    count is_warning (trace s') = count is_warning (trace s).
Proof.
  intros Hwf. unfold msm_dma_buf_freed.
  destruct (buf_freed_loop_spec (S (length locks)) b locks s Hwf)
    as (L & HL & Hperm); [lia|].
  exists (free_all L s). split; [done|].
  assert (Hnd : NoDup L) by (rewrite Hperm; apply Hwf).
  assert (Hlive : ∀ q, q ∈ L → is_Some (maps s !! q)).
  { intros q Hq. rewrite Hperm in Hq.
    destruct (wf_data_live s Hwf b q Hq) as (n & Hn & _). eauto. }
  destruct (free_all_lists L s Hnd Hlive) as (Hd & Hv & Hc).
  split; [|split; [|split; [|split]]].
  - rewrite Hd. apply filter_none. intros q Hq. rewrite Hperm. by intros [].
  - intros d (q & n & Hq & Hn & Hdn).
    rewrite Hv in Hq. apply list_elem_of_filter in Hq as [Hnot _].
    rewrite maps_free_all, decide_False in Hn by done.
    apply Hnot. rewrite Hperm, <- Hdn. by apply Hwf.
  - intros p m Hp Hm. apply free_all_released; [done..| |done].
    by rewrite Hperm.
  - by rewrite Hc, Hperm.
  - apply count_warning_free_all.
Qed.

(** ** Reference counting *)

(** Releasing the one record of a pair leaves no record of the pair in
    either index. *)
Lemma free_removes_pair s p m :
  wf s → maps s !! p = Some m →
  ¬ in_buffer_index (msm_iommu_map_free p s) (dev m) (data m) ∧
  ¬ in_device_index (msm_iommu_map_free p s) (dev m) (data m).
Proof.
  intros Hwf Hm. rewrite (msm_iommu_map_free_live _ _ _ Hm).
  split; intros (q & n & Hq & Hn & Hdn);
    unfold data_list, dev_list in Hq; simpl in Hq, Hn;
    rewrite default_list_del in Hq;
    apply list_elem_of_filter in Hq as [Hne Hq];
    rewrite lookup_delete_ne in Hn by done; apply Hne.
  - destruct (wf_data_live s Hwf _ q Hq) as (n' & Hn' & Hb).
    eapply (wf_key s Hwf q p n m); [done..|congruence].
  - destruct (wf_dev_live s Hwf _ q Hq) as (n' & Hn' & Hb).
    eapply (wf_key s Hwf q p n m); [done|done|congruence|done].
Qed.

Lemma lookup_pair s b d p m :
  wf s → msm_iommu_map_lookup s b d = Some (p, m) →
  maps s !! p = Some m ∧ dev m = d ∧ data m = b ∧
  p ∈ data_list s b ∧ p ∈ dev_list s d.
Proof.
  intros Hwf (Hin & Hm & Hd)%lookup_in_Some.
  destruct (wf_data_live s Hwf b p Hin) as (m' & Hm' & Hb).
  assert (m' = m) as -> by congruence.
  repeat split; try done. rewrite <- Hd. by apply Hwf.
Qed.





Section Balance.

Variable DMA_ATTR_NO_DELAYED_UNMAP : Z.
Variable dma_map_sg_attrs :
  list event → positive → scatterlist → Z → dma_data_direction → Z →
  Z * scatterlist.
Variable is_device_dma_coherent : positive → bool.

Local Abbreviation Map :=
  (msm_dma_map_sg_attrs DMA_ATTR_NO_DELAYED_UNMAP dma_map_sg_attrs
     is_device_dma_coherent).
Local Abbreviation Map_n :=
  (map_n DMA_ATTR_NO_DELAYED_UNMAP dma_map_sg_attrs is_device_dma_coherent).





End Balance.

(** ** Reachable states, initial refcount, results *)

Section Invariants.

Variable DMA_ATTR_NO_DELAYED_UNMAP : Z.
Variable dma_map_sg_attrs :
  list event → positive → scatterlist → Z → dma_data_direction → Z →
  Z * scatterlist.
Variable is_device_dma_coherent : positive → bool.

(** C9: in every state reached by calls of [msm_dma_map_sg_attrs],
    [msm_dma_unmap_sg], [msm_dma_unmap_all_for_dev] and
    [msm_dma_buf_freed], a live record is linked in the list of exactly
    one buffer (its own) and of exactly one device (its own), once in
    each; a pointer is linked in some buffer's list exactly when it is
    linked in some device's list, and then it is a live record: the
    operations link and unlink a record in both indexes together. *)
Theorem C9_record_in_both_indexes s :
  reachable DMA_ATTR_NO_DELAYED_UNMAP dma_map_sg_attrs
    is_device_dma_coherent s →
  (∀ p m, maps s !! p = Some m →
     (∀ b, p ∈ data_list s b ↔ b = data m) ∧
     (∀ d, p ∈ dev_list s d ↔ d = dev m)) ∧
  (∀ p, (∃ b, p ∈ data_list s b) ↔ (∃ d, p ∈ dev_list s d)) ∧
  (∀ p, (∃ b, p ∈ data_list s b) → is_Some (maps s !! p)) ∧
  (∀ b, NoDup (data_list s b)) ∧
  (∀ d, NoDup (dev_list s d)).
Proof.
  intros Hwf%reachable_wf.
  split; [|split; [|split; [|split]]].
  - intros p m Hm. split.
    + intros b. split.
      * intros Hp. destruct (wf_data_live s Hwf b p Hp) as (m' & ? & ?).
        congruence.
      * intros ->. by apply Hwf.
    + intros d. split.
      * intros Hp. destruct (wf_dev_live s Hwf d p Hp) as (m' & ? & ?).
        congruence.
      * intros ->. by apply Hwf.
  - intros p. split.
    + intros [b Hp]. destruct (wf_data_live s Hwf b p Hp) as (m & Hm & _).
      exists (dev m). by apply Hwf.
    + intros [d Hp]. destruct (wf_dev_live s Hwf d p Hp) as (m & Hm & _).
      exists (data m). by apply Hwf.
  - intros p [b Hp]. destruct (wf_data_live s Hwf b p Hp) as (m & Hm & _).
    eauto.
  - apply Hwf.
  - apply Hwf.
Qed.

(** *** The initial refcount *)

(** C1 (the code at a mask other than bit 0): when the flag's mask is
    [2 ^ k] with [k] ≥ 1 and the flag is set in [attrs], a miss whose
    mapping succeeds creates a record whose refcount is
    [2 - (int) 2 ^ k], which is never 1 ([int not_lazy] holds the
    masked bit itself, not 0 or 1). *)
Theorem C1_refcount_init_mask_not_bit0 k d sg0 n0 dr b attrs s :
  1 ≤ k → Z.testbit attrs k = true →
  msm_iommu_map_lookup s b d = None →
  (dma_map_sg_attrs (trace s) d sg0 n0 dr attrs).1 ≠ 0 →
  ∃ p m,
    msm_iommu_map_lookup
      (msm_dma_map_sg_attrs (2 ^ k) dma_map_sg_attrs is_device_dma_coherent
         d sg0 n0 dr b attrs s).2 b d = Some (p, m) ∧
    maps s !! p = None ∧
    refcount m = to_int (2 - to_int (2 ^ k)) ∧
    refcount m ≠ 1.
Proof.
  intros Hk Hbit Hl Hf.
  destruct (refcount_init (2 ^ k) dma_map_sg_attrs is_device_dma_coherent
              d sg0 n0 dr b attrs s Hl Hf) as (p & m & Hl' & Hp & Hr).
  exists p, m. split; [done|]. split; [done|].
  unfold not_lazy in Hr. rewrite Z_land_pow2, Hbit in Hr by lia.
  split; [done|]. rewrite Hr.
  destruct (to_int_wrap (2 ^ k)) as [q1 Hq1].
  destruct (to_int_wrap (2 - to_int (2 ^ k))) as [q2 Hq2].
  rewrite Hq2, Hq1.
  replace (2 ^ k) with (2 * 2 ^ (k - 1))
    by (rewrite <- Z.pow_succ_r by lia; f_equal; lia).
  change (2 ^ 32) with 4294967296. lia.
Qed.

(** When the mask is bit 0 and the flag is set the count starts at 1. *)
Lemma refcount_init_bit0 d sg0 n0 dr b attrs s :
  Z.testbit attrs 0 = true →
  msm_iommu_map_lookup s b d = None →
  (dma_map_sg_attrs (trace s) d sg0 n0 dr attrs).1 ≠ 0 →
  ∃ p m,
    msm_iommu_map_lookup
      (msm_dma_map_sg_attrs 1 dma_map_sg_attrs is_device_dma_coherent
         d sg0 n0 dr b attrs s).2 b d = Some (p, m) ∧
    refcount m = 1.
Proof.
  intros Hbit Hl Hf.
  destruct (refcount_init 1 dma_map_sg_attrs is_device_dma_coherent
              d sg0 n0 dr b attrs s Hl Hf) as (p & m & Hl' & Hp & Hr).
  exists p, m. split; [done|]. rewrite Hr. unfold not_lazy.
  change 1 with (2 ^ 0) at 1. by rewrite Z_land_pow2, Hbit.
Qed.

(** *** What the operations return *)

(** C8 (amended): [msm_dma_map_sg_attrs] returns an [int]: on a miss the
    value the external mapping primitive returned, which is 0 exactly
    when nothing was cached; on a hit the caller's own [nents].
    [msm_dma_unmap_sg] and [msm_dma_unmap_all_for_dev] return nothing
    and always complete; [msm_dma_buf_freed] returns nothing and
    completes for every schedule of lock contention. *)
Theorem C8_results d sg0 n0 dr b attrs locks s :
  (msm_iommu_map_lookup s b d = None →
     (msm_dma_map_sg_attrs DMA_ATTR_NO_DELAYED_UNMAP dma_map_sg_attrs
        is_device_dma_coherent d sg0 n0 dr b attrs s).1.1
     = (dma_map_sg_attrs (trace s) d sg0 n0 dr attrs).1 ∧
     ((msm_dma_map_sg_attrs DMA_ATTR_NO_DELAYED_UNMAP dma_map_sg_attrs
         is_device_dma_coherent d sg0 n0 dr b attrs s).1.1 = 0 ↔
      msm_iommu_map_lookup
        (msm_dma_map_sg_attrs DMA_ATTR_NO_DELAYED_UNMAP dma_map_sg_attrs
           is_device_dma_coherent d sg0 n0 dr b attrs s).2 b d = None)) ∧
  (is_Some (msm_iommu_map_lookup s b d) →
     (msm_dma_map_sg_attrs DMA_ATTR_NO_DELAYED_UNMAP dma_map_sg_attrs
        is_device_dma_coherent d sg0 n0 dr b attrs s).1.1 = n0) ∧
  (msm_dma_unmap_sg d b s).1 = tt ∧
  (msm_dma_unmap_all_for_dev d s).1 = tt ∧
  (wf s → is_Some (msm_dma_buf_freed (S (length locks)) b locks s)).
Proof.
  split; [|split; [|split; [|split]]].
  - intros Hl.
    destruct (decide ((dma_map_sg_attrs (trace s) d sg0 n0 dr attrs).1 = 0))
      as [Hf|Hf].
    + rewrite map_miss_failure by done. simpl. by rewrite Hf.
    + rewrite map_miss_lookup by done.
      rewrite map_miss_success by done. simpl. by split.
  - intros [[p m] Hl]. by rewrite (map_hit _ _ _ _ _ _ _ _ _ _ _ _ Hl).
  - by destruct (msm_dma_unmap_sg d b s).1.
  - done.
  - intros Hwf. unfold msm_dma_buf_freed.
    destruct (buf_freed_loop_spec (S (length locks)) b locks s Hwf)
      as (L & -> & _); [lia|]. eauto.
Qed.

End Invariants.

(** ** The kref-based map path *)

Section LegacyFacts.

Variable DMA_ATTR_NO_DELAYED_UNMAP : Z.
Variable dma_map_sg_attrs :
  list event → positive → scatterlist → Z → dma_data_direction → Z →
  Z * scatterlist.
Variable is_device_dma_coherent : positive → bool.

Local Abbreviation Lmap :=
  (Legacy.__msm_dma_map_sg DMA_ATTR_NO_DELAYED_UNMAP dma_map_sg_attrs
     is_device_dma_coherent).

(** Taking the reference on the metadata object touches no mapping
    record and does not change what the lookup finds. *)
Lemma legacy_meta_get b d attrs allocs s extra allocs1 s1 :
  Legacy.meta_get_or_create DMA_ATTR_NO_DELAYED_UNMAP b attrs allocs s
    = Some (extra, allocs1, s1) →
  Legacy.maps s1 = Legacy.maps s ∧ Legacy.trace s1 = Legacy.trace s ∧
  Legacy.msm_iommu_lookup s1 b d = Legacy.msm_iommu_lookup s b d.
Proof.
  unfold Legacy.meta_get_or_create, Legacy.msm_iommu_lookup.
  destruct (Legacy.iommu_root s !! b) as [mt|] eqn:Hb.
  - intros [= <- <- <-]. simpl. by rewrite lookup_insert_eq.
  - destruct (Legacy.alloc allocs) as [[] allocs']; [|done].
    intros [= <- <- <-]. simpl. by rewrite lookup_insert_eq.
Qed.

Lemma legacy_meta_get_found b d attrs allocs s :
  is_Some (Legacy.msm_iommu_lookup s b d) →
  ∃ s1, Legacy.meta_get_or_create DMA_ATTR_NO_DELAYED_UNMAP b attrs allocs s
          = Some (false, allocs, s1).
Proof.
  unfold Legacy.meta_get_or_create, Legacy.msm_iommu_lookup.
  destruct (Legacy.iommu_root s !! b) as [mt|]; [eauto|].
  by intros [? ?].
Qed.

(** On a hit [__msm_dma_map_sg] compares [nents], direction, attribute
    flags and start address with the record: a request that differs
    returns [-EINVAL] and leaves every record as it was. *)
Lemma legacy_hit_mismatch d sg0 n0 dr b attrs allocs s p m :
  Legacy.msm_iommu_lookup s b d = Some (p, m) →
  ¬ (n0 = Legacy.nents m ∧ dr = Legacy.dir m ∧ attrs = Legacy.map_attrs m
     ∧ sg_phys sg0 = Legacy.buf_start_addr m) →
  (Lmap d sg0 n0 dr b attrs allocs s).1.1 = - Legacy.EINVAL ∧
  (Lmap d sg0 n0 dr b attrs allocs s).1.2 = sg0 ∧
  Legacy.maps (Lmap d sg0 n0 dr b attrs allocs s).2 = Legacy.maps s.
Proof.
  intros Hl Hdiff.
  destruct (legacy_meta_get_found b d attrs allocs s) as [s1 Hg]; [eauto|].
  destruct (legacy_meta_get b d _ _ _ _ _ _ Hg) as (Hm & _ & Hl1).
  unfold Legacy.__msm_dma_map_sg. rewrite Hg, Hl1, Hl.
  by rewrite decide_False.
Qed.

(** A request that matches takes one reference on the record and
    returns the cached address range. *)
Lemma legacy_hit_match d sg0 n0 dr b attrs allocs s p m :
  Legacy.msm_iommu_lookup s b d = Some (p, m) →
  n0 = Legacy.nents m ∧ dr = Legacy.dir m ∧ attrs = Legacy.map_attrs m
    ∧ sg_phys sg0 = Legacy.buf_start_addr m →
  (Lmap d sg0 n0 dr b attrs allocs s).1.1 = n0 ∧
  dma_address (Lmap d sg0 n0 dr b attrs allocs s).1.2
    = dma_address (Legacy.sgl m) ∧
  dma_length (Lmap d sg0 n0 dr b attrs allocs s).1.2
    = dma_length (Legacy.sgl m) ∧
  Legacy.maps (Lmap d sg0 n0 dr b attrs allocs s).2
    = <[p := Legacy.set_ref (Legacy.kref_get (Legacy.ref m)) m]> (Legacy.maps s).
Proof.
  intros Hl Hsame.
  destruct (legacy_meta_get_found b d attrs allocs s) as [s1 Hg]; [eauto|].
  destruct (legacy_meta_get b d _ _ _ _ _ _ Hg) as (Hm & _ & Hl1).
  unfold Legacy.__msm_dma_map_sg. rewrite Hg, Hl1, Hl.
  rewrite decide_True by done. simpl. by rewrite Hm.
Qed.

(** On a miss with memory available and a successful mapping the new
    record's kref is 2 when the flag is clear and 1 when it is set,
    whatever the mask. *)
Lemma legacy_refcount_init d sg0 n0 dr b attrs s :
  Legacy.msm_iommu_lookup s b d = None →
  (dma_map_sg_attrs (Legacy.trace s) d sg0 n0 dr attrs).1 ≠ 0 →
  ∃ p m,
    Legacy.maps s !! p = None ∧
    Legacy.maps (Lmap d sg0 n0 dr b attrs [] s).2 !! p = Some m ∧
    Legacy.dev m = d ∧
    Legacy.ref m =
      if decide (Z.land attrs DMA_ATTR_NO_DELAYED_UNMAP = 0) then 2 else 1.
Proof.
  intros Hl Hf.
  assert (∃ extra s1,
    Legacy.meta_get_or_create DMA_ATTR_NO_DELAYED_UNMAP b attrs [] s
      = Some (extra, [], s1)) as (extra & s1 & Hg).
  { unfold Legacy.meta_get_or_create.
    destruct (Legacy.iommu_root s !! b); simpl; eauto. }
  destruct (legacy_meta_get b d _ _ _ _ _ _ Hg) as (Hm & Ht & Hl1).
  unfold Legacy.__msm_dma_map_sg. rewrite Hg, Hl1, Hl. simpl.
  rewrite Ht.
  destruct (dma_map_sg_attrs _ _ _ _ _ _) as [ret sg1]. simpl in Hf.
  rewrite decide_False by done. simpl.
  exists (fresh (dom (Legacy.maps s1))). eexists. split.
  - rewrite <- Hm. apply not_elem_of_dom, is_fresh.
  - rewrite lookup_insert_eq. split; [done|]. simpl. split; [done|].
    unfold Legacy.late_unmap. by case_decide; case_bool_decide.
Qed.

(** With [GFP_KERNEL] the allocations of this path can fail: when the
    table that holds the copy of the scatterlist cannot be allocated the
    call returns [-ENOMEM] although the external mapping succeeded. *)
Lemma legacy_enomem_after_mapping d sg0 n0 dr b attrs s mt :
  Legacy.iommu_root s !! b = Some mt →
  Legacy.msm_iommu_lookup s b d = None →
  (dma_map_sg_attrs (Legacy.trace s) d sg0 n0 dr attrs).1 ≠ 0 →
  (Lmap d sg0 n0 dr b attrs [true; false] s).1.1 = - Legacy.ENOMEM.
Proof.
  intros Hb Hl Hf.
  assert (∃ s1,
    Legacy.meta_get_or_create DMA_ATTR_NO_DELAYED_UNMAP b attrs [true; false] s
      = Some (false, [true; false], s1)) as (s1 & Hg).
  { unfold Legacy.meta_get_or_create. rewrite Hb. eauto. }
  destruct (legacy_meta_get b d _ _ _ _ _ _ Hg) as (Hm & Ht & Hl1).
  unfold Legacy.__msm_dma_map_sg. rewrite Hg, Hl1, Hl. simpl. rewrite Ht.
  destruct (dma_map_sg_attrs _ _ _ _ _ _) as [ret sg1]. simpl in Hf.
  by rewrite decide_False.
Qed.

(** The second [msm_dma_map_sg_attrs] rejects an invalid device pointer
    before anything is looked up. *)
Lemma legacy_invalid_dev sg0 n0 dr dma_buf attrs allocs s :
  Legacy.msm_dma_map_sg_attrs DMA_ATTR_NO_DELAYED_UNMAP dma_map_sg_attrs
    is_device_dma_coherent None sg0 n0 dr dma_buf attrs allocs s
  = (- Legacy.EINVAL, sg0, Legacy.log Ev_pr_err s).
Proof. done. Qed.

(** [msm_iommu_meta_destroy] warns when the buffer's index is not
    empty; it releases no mapping record. *)
Lemma legacy_meta_destroy_warns b mt s :
  Legacy.iommu_root s !! b = Some mt → Legacy.iommu_maps mt ≠ [] →
  Legacy.trace (Legacy.msm_iommu_meta_destroy b s)
    = Ev_WARN (Legacy.buffer mt) :: Legacy.trace s ∧
  Legacy.maps (Legacy.msm_iommu_meta_destroy b s) = Legacy.maps s.
Proof.
  intros Hb Hne. unfold Legacy.msm_iommu_meta_destroy. rewrite Hb. simpl.
  by rewrite decide_False.
Qed.

End LegacyFacts.

(** ** The claims on concrete runs *)

(** C1 at mask bit 11: device 1 maps buffer 1 with the flag set; the new
    record's refcount is [2 - 2048]. *)
Lemma C1_refcount_init_witness :
  (1 ≤ 11 ∧ Z.testbit 2048 11 = true ∧
   msm_iommu_map_lookup empty_state 1 1 = None ∧
   (dma_map_ok (trace empty_state) 1 sg_in 1 DMA_TO_DEVICE 2048).1 ≠ 0) ∧
  ∃ p m,
    msm_iommu_map_lookup
      (msm_dma_map_sg_attrs (2 ^ 11) dma_map_ok not_coherent
         1 sg_in 1 DMA_TO_DEVICE 1 2048 empty_state).2 1 1 = Some (p, m) ∧
    maps empty_state !! p = None ∧
    refcount m = to_int (2 - to_int (2 ^ 11)) ∧
    refcount m ≠ 1.
Proof.
  split; [repeat split; [lia|by vm_compute]|].
  apply (C1_refcount_init_mask_not_bit0 dma_map_ok not_coherent 11);
    [lia|reflexivity|reflexivity|by vm_compute].
Defined.

Example C1_refcount_at_bit11 :
  ∃ m, maps (msm_dma_map_sg_attrs (2 ^ 11) dma_map_ok not_coherent
               1 sg_in 1 DMA_TO_DEVICE 1 2048 empty_state).2 !! 1%positive
         = Some m ∧ refcount m = -2046.
Proof. eexists. split; [by vm_compute|reflexivity]. Qed.


Example C2_run_delayed_unmap :
  count is_unmap
    (trace (unmap_n 1 1 1 (map_n 1 dma_map_ok not_coherent 1 1 sg_in 1
                             DMA_TO_DEVICE 1 0 empty_state))) = 0%nat ∧
  (refcount <$>
     maps (unmap_n 1 1 1 (map_n 1 dma_map_ok not_coherent 1 1 sg_in 1
                            DMA_TO_DEVICE 1 0 empty_state)) !! 1%positive)
  = Some 1.
Proof. split; by vm_compute. Qed.


(** C3 on the first definition of [msm_dma_map_sg_attrs]: buffer 1 is
    mapped by device 1 for [DMA_TO_DEVICE]; a second map for
    [DMA_FROM_DEVICE] does not fail and the record's refcount goes from 2
    to 3. *)
Lemma C3_counterexample_direction_mismatch :
  (dir <$> maps mapped_once !! 1%positive) = Some DMA_TO_DEVICE ∧
  (refcount <$> maps mapped_once !! 1%positive) = Some 2 ∧
  ¬ ((msm_dma_map_sg_attrs 1 dma_map_ok not_coherent 1 sg_in 1
        DMA_FROM_DEVICE 1 0 mapped_once).1.1 ≤ 0 ∧
     maps (msm_dma_map_sg_attrs 1 dma_map_ok not_coherent 1 sg_in 1
             DMA_FROM_DEVICE 1 0 mapped_once).2 = maps mapped_once) ∧
  (msm_dma_map_sg_attrs 1 dma_map_ok not_coherent 1 sg_in 1
     DMA_FROM_DEVICE 1 0 mapped_once).1.1 = 1 ∧
  (refcount <$>
     maps (msm_dma_map_sg_attrs 1 dma_map_ok not_coherent 1 sg_in 1
             DMA_FROM_DEVICE 1 0 mapped_once).2 !! 1%positive) = Some 3.
Proof.
  split; [by vm_compute|]. split; [by vm_compute|].
  split; [|split; by vm_compute].
  intros [Hret _]. vm_compute in Hret. by apply Hret.
Qed.

Lemma C3_hit_witness :
  msm_iommu_map_lookup mapped_once 1 1 = Some (1%positive, record_once) ∧
  (msm_dma_map_sg_attrs 1 dma_map_ok not_coherent 1 sg_in 1
     DMA_FROM_DEVICE 1 0 mapped_once).1.1 = 1 ∧
  dma_address (msm_dma_map_sg_attrs 1 dma_map_ok not_coherent 1 sg_in 1
                 DMA_FROM_DEVICE 1 0 mapped_once).1.2
    = dma_address (sg record_once) ∧
  dma_length (msm_dma_map_sg_attrs 1 dma_map_ok not_coherent 1 sg_in 1
                DMA_FROM_DEVICE 1 0 mapped_once).1.2
    = dma_length (sg record_once) ∧
  maps (msm_dma_map_sg_attrs 1 dma_map_ok not_coherent 1 sg_in 1
          DMA_FROM_DEVICE 1 0 mapped_once).2
    = <[1%positive := set_refcount (to_int (refcount record_once + 1)) record_once]>
        (maps mapped_once) ∧
  map_list (msm_dma_map_sg_attrs 1 dma_map_ok not_coherent 1 sg_in 1
              DMA_FROM_DEVICE 1 0 mapped_once).2 = map_list mapped_once ∧
  iommu_map_list (msm_dma_map_sg_attrs 1 dma_map_ok not_coherent 1 sg_in 1
                    DMA_FROM_DEVICE 1 0 mapped_once).2
    = iommu_map_list mapped_once.
Proof.
  split; [by vm_compute|].
  apply (C3_hit_takes_reference_without_check 1 dma_map_ok not_coherent
           1 sg_in 1 DMA_FROM_DEVICE 1 0 mapped_once 1 record_once).
  by vm_compute.
Defined.

Lemma wf_mapped_once : wf mapped_once.
Proof. apply wf_msm_dma_map_sg_attrs, wf_empty_state. Qed.

Lemma C4_unmap_all_for_dev_witness :
  wf mapped_once ∧
  dev_list (msm_dma_unmap_all_for_dev 1 mapped_once).2 1 = [] ∧
  (∀ b, ¬ in_buffer_index (msm_dma_unmap_all_for_dev 1 mapped_once).2 1 b) ∧
  (∀ p m, p ∈ dev_list mapped_once 1 → maps mapped_once !! p = Some m →
     maps (msm_dma_unmap_all_for_dev 1 mapped_once).2 !! p = None ∧
     (∀ b, p ∉ data_list (msm_dma_unmap_all_for_dev 1 mapped_once).2 b) ∧
     (∀ d, p ∉ dev_list (msm_dma_unmap_all_for_dev 1 mapped_once).2 d) ∧
     unmap_event m ∈ trace (msm_dma_unmap_all_for_dev 1 mapped_once).2) ∧
  count is_unmap (trace (msm_dma_unmap_all_for_dev 1 mapped_once).2) =
    (count is_unmap (trace mapped_once) + length (dev_list mapped_once 1))%nat.
Proof.
  split; [apply wf_mapped_once|].
  apply (C4_unmap_all_for_dev 1 mapped_once), wf_mapped_once.
Defined.

Example C4_run :
  dev_list mapped_once 1 = [1%positive] ∧
  (refcount <$> maps mapped_once !! 1%positive) = Some 2 ∧
  maps (msm_dma_unmap_all_for_dev 1 mapped_once).2 = ∅ ∧
  data_list (msm_dma_unmap_all_for_dev 1 mapped_once).2 1 = [] ∧
  count is_unmap (trace (msm_dma_unmap_all_for_dev 1 mapped_once).2) = 1%nat.
Proof. repeat split; by vm_compute. Qed.

(** C5 as stated fails: buffer 1 is freed while device 1 still maps it
    with refcount 2; the record is released, the external unmap primitive
    is called, and nothing is reported. *)
Lemma C5_counterexample_no_warning :
  ∃ s', msm_dma_buf_freed 1 1 [] mapped_once = Some s' ∧
    length (data_list mapped_once 1) = 1%nat ∧
    (refcount <$> maps mapped_once !! 1%positive) = Some 2 ∧
    maps s' = ∅ ∧
    count is_unmap (trace s') = 1%nat ∧
    count is_warning (trace s') = 0%nat ∧
    ¬ (count is_warning (trace s') =
       (count is_warning (trace mapped_once) + length (data_list mapped_once 1))%nat).
Proof.
  eexists. split; [by vm_compute|]. simpl.
  repeat split; try by vm_compute.
Qed.

Lemma C5_buf_freed_witness :
  wf mapped_once ∧
  ∃ s', msm_dma_buf_freed (S (length [false; true])) 1 [false; true] mapped_once
          = Some s' ∧
    data_list s' 1 = [] ∧
    (∀ d, ¬ in_device_index s' d 1) ∧
    (∀ p m, p ∈ data_list mapped_once 1 → maps mapped_once !! p = Some m →
       maps s' !! p = None ∧ (∀ b', p ∉ data_list s' b') ∧
       (∀ d, p ∉ dev_list s' d) ∧ unmap_event m ∈ trace s') ∧
    count is_unmap (trace s') =
      (count is_unmap (trace mapped_once) + length (data_list mapped_once 1))%nat ∧
    count is_warning (trace s') = count is_warning (trace mapped_once).
Proof.
  split; [apply wf_mapped_once|].
  apply (C5_buf_freed_releases_without_warning 1 [false; true] mapped_once),
    wf_mapped_once.
Defined.

Lemma C6_miss_failure_witness :
  (msm_iommu_map_lookup mapped_once 1 2 = None ∧
   (dma_map_fail (trace mapped_once) 2 sg_in 1 DMA_TO_DEVICE 0).1 = 0) ∧
  (msm_dma_map_sg_attrs 1 dma_map_fail not_coherent 2 sg_in 1 DMA_TO_DEVICE
     1 0 mapped_once).1.1 = 0 ∧
  maps (msm_dma_map_sg_attrs 1 dma_map_fail not_coherent 2 sg_in 1
          DMA_TO_DEVICE 1 0 mapped_once).2 = maps mapped_once ∧
  map_list (msm_dma_map_sg_attrs 1 dma_map_fail not_coherent 2 sg_in 1
              DMA_TO_DEVICE 1 0 mapped_once).2 = map_list mapped_once ∧
  iommu_map_list (msm_dma_map_sg_attrs 1 dma_map_fail not_coherent 2 sg_in 1
                    DMA_TO_DEVICE 1 0 mapped_once).2
    = iommu_map_list mapped_once.
Proof.
  split; [split; by vm_compute|].
  apply (C6_miss_failure_leaves_indexes 1 dma_map_fail not_coherent
           2 sg_in 1 DMA_TO_DEVICE 1 0 mapped_once); by vm_compute.
Defined.

Lemma not_in_buffer_index_2 : ¬ in_buffer_index mapped_once 2 1.
Proof.
  intros (p & m & Hp & Hm & Hd).
  replace (data_list mapped_once 1) with [1%positive] in Hp by (by vm_compute).
  apply list_elem_of_singleton in Hp as ->.
  vm_compute in Hm. injection Hm as <-. discriminate Hd.
Qed.

Lemma C7_unmap_absent_witness :
  ¬ in_buffer_index mapped_once 2 1 ∧
  msm_dma_unmap_sg 2 1 mapped_once = (tt, mapped_once).
Proof.
  split; [apply not_in_buffer_index_2|].
  apply (C7_unmap_absent_is_noop 2 1 mapped_once), not_in_buffer_index_2.
Defined.

(** C8 as stated fails for [msm_dma_unmap_sg]: what it returns is the
    same in every call, so no call's result tells success from failure. *)
Lemma C8_counterexample_unmap_returns_nothing :
  ¬ (∃ d1 b1 s1 d2 b2 s2,
       (msm_dma_unmap_sg d1 b1 s1).1 ≠ (msm_dma_unmap_sg d2 b2 s2).1) ∧
  (msm_dma_unmap_sg 1 1 mapped_once).1 = (msm_dma_unmap_sg 2 1 mapped_once).1.
Proof.
  split; [|done]. intros (d1 & b1 & s1 & d2 & b2 & s2 & H). apply H.
  by destruct (msm_dma_unmap_sg d1 b1 s1).1, (msm_dma_unmap_sg d2 b2 s2).1.
Qed.

Lemma reachable_mapped_once : reachable 1 dma_map_ok not_coherent mapped_once.
Proof. eapply reach_step; [apply reach_init|apply step_map]. Qed.

Lemma C9_record_in_both_indexes_witness :
  reachable 1 dma_map_ok not_coherent mapped_once ∧
  (∀ p m, maps mapped_once !! p = Some m →
     (∀ b, p ∈ data_list mapped_once b ↔ b = data m) ∧
     (∀ d, p ∈ dev_list mapped_once d ↔ d = dev m)) ∧
  (∀ p, (∃ b, p ∈ data_list mapped_once b) ↔ (∃ d, p ∈ dev_list mapped_once d)) ∧
  (∀ p, (∃ b, p ∈ data_list mapped_once b) → is_Some (maps mapped_once !! p)) ∧
  (∀ b, NoDup (data_list mapped_once b)) ∧
  (∀ d, NoDup (dev_list mapped_once d)).
Proof.
  split; [apply reachable_mapped_once|].
  apply (C9_record_in_both_indexes 1 dma_map_ok not_coherent mapped_once),
    reachable_mapped_once.
Defined.

Lemma C10_miss_witness :
  msm_iommu_map_lookup empty_state 1 1 = None ∧
  ((msm_dma_map_sg_attrs 1 dma_map_ok not_coherent 1 sg_in 1 DMA_TO_DEVICE
      1 0 empty_state).1.1 = 0 ↔
   (dma_map_ok (trace empty_state) 1 sg_in 1 DMA_TO_DEVICE 0).1 = 0) ∧
  ((dma_map_ok (trace empty_state) 1 sg_in 1 DMA_TO_DEVICE 0).1 ≠ 0 →
   ∃ p m, maps empty_state !! p = None ∧
     maps (msm_dma_map_sg_attrs 1 dma_map_ok not_coherent 1 sg_in 1
             DMA_TO_DEVICE 1 0 empty_state).2 !! p = Some m ∧
     dev m = 1%positive ∧ data m = 1%positive ∧
     p ∈ data_list (msm_dma_map_sg_attrs 1 dma_map_ok not_coherent 1 sg_in 1
                      DMA_TO_DEVICE 1 0 empty_state).2 1 ∧
     p ∈ dev_list (msm_dma_map_sg_attrs 1 dma_map_ok not_coherent 1 sg_in 1
                     DMA_TO_DEVICE 1 0 empty_state).2 1).
Proof.
  split; [reflexivity|].
  apply (C10_miss_fails_iff_primitive_fails 1 dma_map_ok not_coherent
           1 sg_in 1 DMA_TO_DEVICE 1 0 empty_state).
  reflexivity.
Defined.

Lemma C8_results_witness :
  wf mapped_once ∧
  is_Some (msm_dma_buf_freed (S (length [false])) 1 [false] mapped_once).
Proof.
  split; [apply wf_mapped_once|].
  apply (C8_results 1 dma_map_ok not_coherent 1 sg_in 1 DMA_TO_DEVICE 1 0
           [false] mapped_once), wf_mapped_once.
Defined.

(** * Further properties of the list-based cache *)

(** ** Lookup *)

Lemma lookup_Some_iff s b d p m :
  wf s →
  msm_iommu_map_lookup s b d = Some (p, m) ↔
  maps s !! p = Some m ∧ dev m = d ∧ data m = b.
Proof.
  intros Hwf. split.
  - intros Hl. by destruct (lookup_pair s b d p m Hwf Hl) as (? & ? & ? & _).
  - intros (Hm & Hd & Hb).
    destruct (msm_iommu_map_lookup s b d) as [[q n]|] eqn:Hl.
    + destruct (lookup_pair s b d q n Hwf Hl) as (Hn & Hdn & Hbn & _).
      assert (q = p) as -> by (eapply (wf_key s Hwf); [done..|congruence|congruence]).
      congruence.
    + exfalso. unfold msm_iommu_map_lookup in Hl. rewrite lookup_in_None in Hl.
      apply (Hl p m); [|done..]. rewrite <- Hb. by apply Hwf.
Qed.

Lemma lookup_None_iff s b d :
  msm_iommu_map_lookup s b d = None ↔ ¬ in_buffer_index s d b.
Proof.
  unfold msm_iommu_map_lookup, in_buffer_index. rewrite lookup_in_None. split.
  - intros H (p & m & Hp & Hm & Hd). by apply (H p m).
  - intros H p m Hp Hm Hd. apply H. by exists p, m.
Qed.

(** [msm_iommu_map_lookup] finds exactly the record of the pair: in a
    state whose indexes are consistent it returns a pointer and its record
    if and only if that record is live and belongs to the device and the
    buffer asked for. *)
Theorem lookup_finds_the_record_of_the_pair s b d p m :
  wf s →
  msm_iommu_map_lookup s b d = Some (p, m) ↔
  maps s !! p = Some m ∧ dev m = d ∧ data m = b.
Proof. apply lookup_Some_iff. Qed.

(** [msm_iommu_map_lookup] returns [NULL] exactly when the buffer's list
    links no record of the device; this needs no assumption on the state. *)
Theorem lookup_null_iff_no_record s b d :
  msm_iommu_map_lookup s b d = None ↔
  ∀ p m, p ∈ data_list s b → maps s !! p = Some m → dev m ≠ d.
Proof. unfold msm_iommu_map_lookup. apply lookup_in_None. Qed.

(** ** Two maps of the same pair *)

Section Dedup.

Variable DMA_ATTR_NO_DELAYED_UNMAP : Z.
Variable dma_map_sg_attrs :
  list event → positive → scatterlist → Z → dma_data_direction → Z →
  Z * scatterlist.
Variable is_device_dma_coherent : positive → bool.

Local Abbreviation Map :=
  (msm_dma_map_sg_attrs DMA_ATTR_NO_DELAYED_UNMAP dma_map_sg_attrs
     is_device_dma_coherent).

(** After a miss whose mapping succeeded, a second
    [msm_dma_map_sg_attrs] for the same device and buffer, with any
    scatterlist, count, direction and flags, does not call the external
    mapping primitive again and hands out the address range the first call
    returned. *)
Theorem second_map_reuses_the_mapping d sg0 n0 dr b attrs sg0' n0' dr' attrs' s :
  msm_iommu_map_lookup s b d = None →
  (dma_map_sg_attrs (trace s) d sg0 n0 dr attrs).1 ≠ 0 →
  dma_address (Map d sg0' n0' dr' b attrs' (Map d sg0 n0 dr b attrs s).2).1.2
    = dma_address (Map d sg0 n0 dr b attrs s).1.2 ∧
  dma_length (Map d sg0' n0' dr' b attrs' (Map d sg0 n0 dr b attrs s).2).1.2
    = dma_length (Map d sg0 n0 dr b attrs s).1.2 ∧
  count is_map_call
    (trace (Map d sg0' n0' dr' b attrs' (Map d sg0 n0 dr b attrs s).2).2)
    = count is_map_call (trace (Map d sg0 n0 dr b attrs s).2).
Proof.
  intros Hl Hf.
  pose proof (map_miss_lookup DMA_ATTR_NO_DELAYED_UNMAP dma_map_sg_attrs
                is_device_dma_coherent d sg0 n0 dr b attrs s Hl Hf) as Hl1.
  rewrite (map_hit _ _ _ _ _ _ _ _ _ _ _ _ Hl1).
  rewrite map_miss_success by done. simpl.
  repeat split. destruct (is_device_dma_coherent d); [|done].
  by rewrite count_cons.
Qed.

Lemma to_int_succ_pred r :
  INT_MIN ≤ r ≤ INT_MAX → to_int (to_int (r + 1) - 1) = r.
Proof.
  intros Hr. destruct (to_int_wrap (r + 1)) as [q Hq]. rewrite Hq.
  rewrite <- (to_int_id r) at 2 by done. unfold to_int.
  replace (r + 1 - 2 ^ 32 * q - 1 + 2 ^ 31) with (r + 2 ^ 31 + (- q) * 2 ^ 32)
    by lia.
  by rewrite Z_mod_plus_full.
Qed.

Lemma set_refcount_id m : set_refcount (refcount m) m = m.
Proof. by destruct m. Qed.

Lemma set_refcount_twice r r' m :
  set_refcount r (set_refcount r' m) = set_refcount r m.
Proof. done. Qed.

(** On a record that exists and whose refcount is not 0,
    [msm_dma_map_sg_attrs] followed by [msm_dma_unmap_sg] puts the records
    and both indexes back exactly as they were, also when the increment
    wraps around. *)
Theorem map_then_unmap_restores d sg0 n0 dr b attrs s p m :
  msm_iommu_map_lookup s b d = Some (p, m) →
  INT_MIN ≤ refcount m ≤ INT_MAX → refcount m ≠ 0 →
  maps (msm_dma_unmap_sg d b (Map d sg0 n0 dr b attrs s).2).2 = maps s ∧
  map_list (msm_dma_unmap_sg d b (Map d sg0 n0 dr b attrs s).2).2 = map_list s ∧
  iommu_map_list (msm_dma_unmap_sg d b (Map d sg0 n0 dr b attrs s).2).2
    = iommu_map_list s.
Proof.
  intros Hl Hr Hnz.
  destruct (lookup_in_Some _ _ _ _ _ Hl) as (_ & Hm & _).
  rewrite (map_hit _ _ _ _ _ _ _ _ _ _ _ _ Hl).
  unfold msm_dma_unmap_sg, msm_iommu_map_lookup, data_list. simpl.
  fold (data_list s b).
  rewrite (lookup_in_insert _ _ _ _ m (set_refcount (to_int (refcount m + 1)) m))
    by done.
  simpl. rewrite to_int_succ_pred by done.
  rewrite decide_False by done. simpl.
  rewrite insert_insert_eq, set_refcount_twice, set_refcount_id.
  by rewrite insert_id.
Qed.

End Dedup.

(** After [msm_dma_unmap_sg] the record of the pair is either gone or has
    a refcount other than 0: the call never leaves behind a record it
    brought to 0. *)
Theorem unmap_leaves_no_zero_refcount d b s p m :
  wf s →
  msm_iommu_map_lookup (msm_dma_unmap_sg d b s).2 b d = Some (p, m) →
  refcount m ≠ 0.
Proof.
  intros Hwf. unfold msm_dma_unmap_sg.
  destruct (msm_iommu_map_lookup s b d) as [[q n]|] eqn:Hl;
    [|simpl; by rewrite Hl].
  destruct (lookup_pair s b d q n Hwf Hl) as (Hn & Hd & Hb & _).
  set (s1 := State _ _ _ _).
  assert (Hn1 : maps s1 !! q = Some (set_refcount (to_int (refcount n - 1)) n))
    by apply lookup_insert_eq.
  assert (Hwf1 : wf s1)
    by (by apply (wf_update s s1 q n (set_refcount (to_int (refcount n - 1)) n))).
  case_decide as Hz; simpl.
  - intros Hl'. exfalso.
    destruct (free_removes_pair s1 q _ Hwf1 Hn1) as [H1 _]. simpl in H1.
    rewrite Hd, Hb in H1. by apply lookup_None_iff in H1; rewrite H1 in Hl'.
  - intros Hl'.
    assert (msm_iommu_map_lookup s1 b d
            = Some (q, set_refcount (to_int (refcount n - 1)) n)) as Hl1
      by (by eapply lookup_in_insert).
    rewrite Hl1 in Hl'. by injection Hl' as <- <-.
Qed.

(** ** Operations on one pair leave the other pairs alone *)

Lemma lookup_frame s s' b d :
  wf s → wf s' →
  (∀ q n, dev n = d → data n = b →
          (maps s' !! q = Some n ↔ maps s !! q = Some n)) →
  msm_iommu_map_lookup s' b d = msm_iommu_map_lookup s b d.
Proof.
  intros Hwf Hwf' H.
  destruct (msm_iommu_map_lookup s b d) as [[q n]|] eqn:Hl.
  - apply lookup_Some_iff in Hl as (Hn & Hd & Hb); [|done].
    apply lookup_Some_iff; [done|]. split; [by apply H|done].
  - destruct (msm_iommu_map_lookup s' b d) as [[q n]|] eqn:Hl'; [|done].
    apply lookup_Some_iff in Hl' as (Hn & Hd & Hb); [|done].
    apply H in Hn; [|done..].
    assert (msm_iommu_map_lookup s b d = Some (q, n))
      by (by apply lookup_Some_iff).
    congruence.
Qed.

Lemma unmap_heap_frame d b s q n :
  wf s → ¬ (dev n = d ∧ data n = b) →
  maps (msm_dma_unmap_sg d b s).2 !! q = Some n ↔ maps s !! q = Some n.
Proof.
  intros Hwf Hother. unfold msm_dma_unmap_sg.
  destruct (msm_iommu_map_lookup s b d) as [[p m]|] eqn:Hl; [|done].
  destruct (lookup_pair s b d p m Hwf Hl) as (Hm & Hd & Hb & _).
  case_decide; simpl.
  - rewrite maps_msm_iommu_map_free. simpl. rewrite delete_insert_eq.
    destruct (decide (q = p)) as [->|Hne].
    + rewrite lookup_delete_eq. split; [done|]. intros Hn.
      exfalso. apply Hother. split; congruence.
    + by rewrite lookup_delete_ne.
  - destruct (decide (q = p)) as [->|Hne].
    + rewrite lookup_insert_eq. split.
      * intros [= <-]. exfalso. by apply Hother.
      * intros Hn. exfalso. apply Hother. split; congruence.
    + by rewrite lookup_insert_ne.
Qed.

(** [msm_dma_unmap_sg] for one (device, buffer) pair changes what the
    lookup finds for no other pair. *)
Theorem unmap_leaves_other_pairs d b d' b' s :
  wf s → ¬ (d' = d ∧ b' = b) →
  msm_iommu_map_lookup (msm_dma_unmap_sg d b s).2 b' d'
    = msm_iommu_map_lookup s b' d'.
Proof.
  intros Hwf Hother. apply lookup_frame; [done|by apply wf_msm_dma_unmap_sg|].
  intros q n Hd Hb. apply unmap_heap_frame; [done|]. intros [? ?].
  apply Hother. split; congruence.
Qed.

Section MapFrame.

Variable DMA_ATTR_NO_DELAYED_UNMAP : Z.
Variable dma_map_sg_attrs :
  list event → positive → scatterlist → Z → dma_data_direction → Z →
  Z * scatterlist.
Variable is_device_dma_coherent : positive → bool.

Local Abbreviation Map :=
  (msm_dma_map_sg_attrs DMA_ATTR_NO_DELAYED_UNMAP dma_map_sg_attrs
     is_device_dma_coherent).

Lemma map_heap_frame d sg0 n0 dr b attrs s q n :
  wf s → ¬ (dev n = d ∧ data n = b) →
  maps (Map d sg0 n0 dr b attrs s).2 !! q = Some n ↔ maps s !! q = Some n.
Proof.
  intros Hwf Hother.
  destruct (msm_iommu_map_lookup s b d) as [[p m]|] eqn:Hl.
  - destruct (lookup_pair s b d p m Hwf Hl) as (Hm & Hd & Hb & _).
    rewrite (map_hit _ _ _ _ _ _ _ _ _ _ _ _ Hl). simpl.
    destruct (decide (q = p)) as [->|Hne]; [|by rewrite lookup_insert_ne].
    rewrite lookup_insert_eq, Hm. split.
    + intros [= <-]. exfalso. by apply Hother.
    + intros [= <-]. exfalso. by apply Hother.
  - destruct (decide ((dma_map_sg_attrs (trace s) d sg0 n0 dr attrs).1 = 0))
      as [Hf|Hf].
    + by rewrite map_miss_failure.
    + rewrite map_miss_success by done. simpl.
      destruct (decide (q = kmalloc_nofail s)) as [->|Hne];
        [|by rewrite lookup_insert_ne].
      rewrite lookup_insert_eq, kmalloc_nofail_fresh. split; [|done].
      intros [= <-]. exfalso. by apply Hother.
Qed.

(** [msm_dma_map_sg_attrs] for one (device, buffer) pair changes what the
    lookup finds for no other pair, whether it hits, misses or fails. *)
Theorem map_leaves_other_pairs d sg0 n0 dr b attrs d' b' s :
  wf s → ¬ (d' = d ∧ b' = b) →
  msm_iommu_map_lookup (Map d sg0 n0 dr b attrs s).2 b' d'
    = msm_iommu_map_lookup s b' d'.
Proof.
  intros Hwf Hother.
  apply lookup_frame; [done|by apply wf_msm_dma_map_sg_attrs|].
  intros q n Hd Hb. apply map_heap_frame; [done|]. intros [? ?].
  apply Hother. split; congruence.
Qed.

End MapFrame.

(** ** Bulk teardown *)

(** Releasing the whole list of a device or of a buffer. *)
Lemma dev_list_live s D q :
  wf s → q ∈ dev_list s D → is_Some (maps s !! q).
Proof. intros Hwf Hq. destruct (wf_dev_live s Hwf D q Hq) as (n & ? & _). eauto. Qed.

Lemma data_list_live s b q :
  wf s → q ∈ data_list s b → is_Some (maps s !! q).
Proof. intros Hwf Hq. destruct (wf_data_live s Hwf b q Hq) as (n & ? & _). eauto. Qed.

Lemma free_all_dev_other s D d :
  wf s → d ≠ D →
  dev_list (free_all (dev_list s D) s) d = dev_list s d.
Proof.
  intros Hwf Hne.
  destruct (free_all_lists (dev_list s D) s) as (_ & Hv & _);
    [apply Hwf|intros q; by apply dev_list_live|].
  rewrite Hv. apply filter_all. intros q Hq HqD.
  destruct (wf_dev_live s Hwf d q Hq) as (n & Hn & Hdn).
  destruct (wf_dev_live s Hwf D q HqD) as (n' & Hn' & Hdn'). congruence.
Qed.

Lemma free_all_dev_own s D :
  wf s → dev_list (free_all (dev_list s D) s) D = [].
Proof.
  intros Hwf.
  destruct (free_all_lists (dev_list s D) s) as (_ & Hv & _);
    [apply Hwf|intros q; by apply dev_list_live|].
  rewrite Hv. apply filter_none. intros q Hq. by intros [].
Qed.

Lemma free_all_data_other s b b' :
  wf s → b' ≠ b →
  data_list (free_all (data_list s b) s) b' = data_list s b'.
Proof.
  intros Hwf Hne.
  destruct (free_all_lists (data_list s b) s) as (Hd & _ & _);
    [apply Hwf|intros q; by apply data_list_live|].
  rewrite Hd. apply filter_all. intros q Hq Hqb.
  destruct (wf_data_live s Hwf b' q Hq) as (n & Hn & Hdn).
  destruct (wf_data_live s Hwf b q Hqb) as (n' & Hn' & Hdn'). congruence.
Qed.

Lemma free_all_data_own s b :
  wf s → data_list (free_all (data_list s b) s) b = [].
Proof.
  intros Hwf.
  destruct (free_all_lists (data_list s b) s) as (Hd & _ & _);
    [apply Hwf|intros q; by apply data_list_live|].
  rewrite Hd. apply filter_none. intros q Hq. by intros [].
Qed.

(** The records a teardown of device [D] keeps are the records of the
    other devices. *)
Lemma free_all_dev_heap s D q n :
  wf s → dev n ≠ D →
  maps (free_all (dev_list s D) s) !! q = Some n ↔ maps s !! q = Some n.
Proof.
  intros Hwf Hne. rewrite maps_free_all. case_decide as Hq; [|done].
  split; [done|]. intros Hn.
  destruct (wf_dev_live s Hwf D q Hq) as (n' & Hn' & Hdn'). congruence.
Qed.

Lemma free_all_data_heap s b q n :
  wf s → data n ≠ b →
  maps (free_all (data_list s b) s) !! q = Some n ↔ maps s !! q = Some n.
Proof.
  intros Hwf Hne. rewrite maps_free_all. case_decide as Hq; [|done].
  split; [done|]. intros Hn.
  destruct (wf_data_live s Hwf b q Hq) as (n' & Hn' & Hdn'). congruence.
Qed.

(** [msm_dma_unmap_all_for_dev] for device [D] leaves every other device
    alone: its Device Mapping Index is the same list and the lookup of any
    of its pairs finds what it found before. *)
Theorem unmap_all_leaves_other_devices D d s :
  wf s → d ≠ D →
  dev_list (msm_dma_unmap_all_for_dev D s).2 d = dev_list s d ∧
  ∀ b, msm_iommu_map_lookup (msm_dma_unmap_all_for_dev D s).2 b d
       = msm_iommu_map_lookup s b d.
Proof.
  intros Hwf Hne. unfold msm_dma_unmap_all_for_dev. simpl. split.
  - by apply free_all_dev_other.
  - intros b. apply lookup_frame; [done|by apply wf_free_all|].
    intros q n Hd _. apply free_all_dev_heap; [done|congruence].
Qed.

(** [msm_dma_unmap_all_for_dev] is idempotent: a second call for the same
    device changes nothing, not even the trace. *)
Theorem unmap_all_twice D s :
  wf s →
  msm_dma_unmap_all_for_dev D (msm_dma_unmap_all_for_dev D s).2
    = (tt, (msm_dma_unmap_all_for_dev D s).2).
Proof.
  intros Hwf. unfold msm_dma_unmap_all_for_dev. simpl.
  by rewrite free_all_dev_own.
Qed.

(** After [msm_dma_unmap_all_for_dev] for a device, [msm_dma_unmap_sg] of
    that device on any buffer is a no-op: a caller that still holds a
    reference and unmaps late tears nothing down twice. *)
Theorem unmap_after_unmap_all D b s :
  wf s →
  msm_dma_unmap_sg D b (msm_dma_unmap_all_for_dev D s).2
    = (tt, (msm_dma_unmap_all_for_dev D s).2).
Proof.
  intros Hwf.
  assert (Hwf' : wf (msm_dma_unmap_all_for_dev D s).2)
    by (by apply wf_msm_dma_unmap_all_for_dev).
  assert (msm_iommu_map_lookup (msm_dma_unmap_all_for_dev D s).2 b D = None)
    as Hl.
  { destruct (msm_iommu_map_lookup _ b D) as [[p m]|] eqn:Hl; [|done].
    destruct (lookup_pair _ b D p m Hwf' Hl) as (_ & _ & _ & _ & Hp).
    unfold msm_dma_unmap_all_for_dev in Hp. simpl in Hp.
    rewrite free_all_dev_own in Hp by done. by apply elem_of_nil in Hp. }
  unfold msm_dma_unmap_sg at 1. by rewrite Hl.
Qed.

Lemma buf_freed_loop_exact fuel b locks s s' :
  wf s → buf_freed_loop fuel b locks 0 s = Some s' →
  s' = free_all (data_list s b) s.
Proof.
  revert locks s. induction fuel as [|fuel IH]; intros locks s Hwf; [done|].
  simpl.
  destruct (buf_freed_pass_spec (data_list s b) locks s)
    as (l1 & l2 & locks' & Hl & [[-> Hc]|[Hc Hlen']]).
  - rewrite Hc, decide_True by done. intros [= <-].
    by rewrite Hl, app_nil_r.
  - rewrite Hc, decide_False by done. change (to_int (1 - 1)) with 0.
    assert (Hnd : NoDup (l1 ++ l2)) by (rewrite <- Hl; apply Hwf).
    apply NoDup_app in Hnd as (Hnd1 & Hdisj & Hnd2).
    assert (Hlive : ∀ q, q ∈ l1 → is_Some (maps s !! q)).
    { intros q Hq. apply (data_list_live s b); [done|].
      rewrite Hl. apply elem_of_app. by left. }
    intros Hloop. apply IH in Hloop; [|by apply wf_free_all].
    destruct (free_all_lists l1 s Hnd1 Hlive) as (Hd & _ & _).
    rewrite Hd, Hl, filter_app in Hloop.
    rewrite filter_none in Hloop by (intros q Hq []; done).
    rewrite filter_all in Hloop by (intros q Hq Hq1; by apply (Hdisj q)).
    simpl in Hloop. rewrite Hloop, Hl. unfold free_all. by rewrite foldl_app.
Qed.

(** Whatever the device-lock contention, [msm_dma_buf_freed] ends in the
    state one uncontended pass over the buffer's list produces: every
    record of the list released in list order, trace included. *)
Theorem buf_freed_schedule_independent fuel b locks s :
  wf s → (length locks < fuel)%nat →
  msm_dma_buf_freed fuel b locks s = Some (free_all (data_list s b) s) ∧
  msm_dma_buf_freed fuel b locks s = msm_dma_buf_freed 1 b [] s.
Proof.
  intros Hwf Hlen.
  assert (∀ f l, (length l < f)%nat →
            msm_dma_buf_freed f b l s = Some (free_all (data_list s b) s)) as H.
  { intros f l Hl. unfold msm_dma_buf_freed.
    destruct (buf_freed_loop_spec f b l s Hwf Hl) as (L & HL & _).
    rewrite HL. f_equal. by apply (buf_freed_loop_exact f b l). }
  split; [by apply H|]. rewrite !H; [done|simpl; lia|done].
Qed.

(** [msm_dma_buf_freed] for buffer [b] leaves every other buffer alone:
    its Buffer Mapping Index is the same list and the lookup of any of its
    pairs finds what it found before. *)
Theorem buf_freed_leaves_other_buffers fuel b locks b' s s' :
  wf s → b' ≠ b →
  msm_dma_buf_freed fuel b locks s = Some s' →
  data_list s' b' = data_list s b' ∧
  ∀ d, msm_iommu_map_lookup s' b' d = msm_iommu_map_lookup s b' d.
Proof.
  intros Hwf Hne Hrun.
  apply buf_freed_loop_exact in Hrun as ->; [|done]. split.
  - by apply free_all_data_other.
  - intros d. apply lookup_frame; [done|by apply wf_free_all|].
    intros q n _ Hb. apply free_all_data_heap; [done|congruence].
Qed.

(** Once [msm_dma_buf_freed] has run for a buffer, running it again, or
    calling [msm_dma_unmap_sg] for the buffer from any device, changes
    nothing: the late calls of an at-least-once cleanup are harmless. *)
Theorem buf_freed_then_nothing_left fuel b locks s s' :
  wf s → msm_dma_buf_freed fuel b locks s = Some s' →
  (∀ fuel' locks', msm_dma_buf_freed (S fuel') b locks' s' = Some s') ∧
  (∀ d, msm_dma_unmap_sg d b s' = (tt, s')).
Proof.
  intros Hwf Hrun.
  apply buf_freed_loop_exact in Hrun as ->; [|done].
  assert (He : data_list (free_all (data_list s b) s) b = [])
    by (by apply free_all_data_own).
  split.
  - intros fuel' locks'. unfold msm_dma_buf_freed. simpl. by rewrite He.
  - intros d. unfold msm_dma_unmap_sg, msm_iommu_map_lookup. by rewrite He.
Qed.

(** ** Mappings established and torn down *)

Lemma balanced_msm_iommu_map_free p s :
  balanced s → balanced (msm_iommu_map_free p s).
Proof.
  unfold balanced, msm_iommu_map_free. intros Hb.
  destruct (maps s !! p) as [m|] eqn:Hp; [|done]. simpl.
  rewrite !count_cons. simpl.
  rewrite map_size_delete_Some by eauto.
  assert (size (maps s) ≠ 0%nat).
  { intros Hz%map_size_empty_inv. by rewrite Hz, lookup_empty in Hp. }
  unfold count in *. lia.
Qed.

Lemma balanced_free_all l s : balanced s → balanced (free_all l s).
Proof.
  revert s. induction l as [|p l IH]; intros s Hb; simpl; [done|].
  by apply IH, balanced_msm_iommu_map_free.
Qed.

Lemma balanced_msm_dma_unmap_sg d b s :
  balanced s → balanced (msm_dma_unmap_sg d b s).2.
Proof.
  intros Hb. unfold msm_dma_unmap_sg.
  destruct (msm_iommu_map_lookup s b d) as [[p m]|] eqn:Hl; [|done].
  apply lookup_in_Some in Hl as (_ & Hp & _).
  set (s1 := State _ _ _ _).
  assert (balanced s1).
  { unfold balanced, s1 in *. simpl. by rewrite map_size_insert_Some by eauto. }
  case_decide; simpl; [by apply balanced_msm_iommu_map_free|done].
Qed.

Lemma balanced_buf_freed_loop fuel b locks retry s s' :
  balanced s → buf_freed_loop fuel b locks retry s = Some s' → balanced s'.
Proof.
  revert locks retry s. induction fuel as [|fuel IH]; intros locks retry s Hb;
    simpl; [done|].
  assert (Hpass : ∀ l lk r s0, balanced s0 →
                    balanced (buf_freed_pass l lk r s0).1.1).
  { induction l as [|p l IHl]; intros lk r s0 H0; simpl; [done|].
    destruct lk as [|[] lk]; simpl; [| |done];
      by apply IHl, balanced_msm_iommu_map_free. }
  specialize (Hpass (data_list s b) locks retry s Hb).
  destruct (buf_freed_pass (data_list s b) locks retry s) as [[s1 locks1] retry1].
  case_decide; [by intros [= <-]|]. by apply IH.
Qed.

Section Balanced.

Variable DMA_ATTR_NO_DELAYED_UNMAP : Z.
Variable dma_map_sg_attrs :
  list event → positive → scatterlist → Z → dma_data_direction → Z →
  Z * scatterlist.
Variable is_device_dma_coherent : positive → bool.

Lemma balanced_msm_dma_map_sg_attrs d sg0 n0 dr b attrs s :
  balanced s →
  balanced (msm_dma_map_sg_attrs DMA_ATTR_NO_DELAYED_UNMAP dma_map_sg_attrs
              is_device_dma_coherent d sg0 n0 dr b attrs s).2.
Proof.
  intros Hb.
  destruct (msm_iommu_map_lookup s b d) as [[p m]|] eqn:Hl.
  - rewrite (map_hit _ _ _ _ _ _ _ _ _ _ _ _ Hl).
    apply lookup_in_Some in Hl as (_ & Hp & _).
    unfold balanced in *. simpl. rewrite map_size_insert_Some by eauto.
    destruct (is_device_dma_coherent d); [|done]. by rewrite !count_cons.
  - destruct (decide ((dma_map_sg_attrs (trace s) d sg0 n0 dr attrs).1 = 0))
      as [Hf|Hf].
    + rewrite map_miss_failure by done. unfold balanced in *. simpl.
      by rewrite !count_cons.
    + rewrite map_miss_success by done. unfold balanced in *. simpl.
      rewrite !count_cons. simpl.
      rewrite map_size_insert_None by apply kmalloc_nofail_fresh.
      apply Z.eqb_neq in Hf. rewrite Hf. simpl. unfold count in *. lia.
Qed.

(** In every state reached by calls of the four operations, the number
    of successful calls of the external mapping primitive equals the
    number of calls of the external unmap primitive plus the number of
    cached records: no mapping is torn down twice and none is dropped
    without a record. *)
Theorem reachable_balanced s :
  reachable DMA_ATTR_NO_DELAYED_UNMAP dma_map_sg_attrs
    is_device_dma_coherent s →
  count is_map_ok (trace s) = (count is_unmap (trace s) + size (maps s))%nat.
Proof.
  induction 1 as [|s s' _ IH Hstep]; [done|].
  fold (balanced s) in IH. fold (balanced s'). destruct Hstep.
  - by apply balanced_msm_dma_map_sg_attrs.
  - by apply balanced_msm_dma_unmap_sg.
  - by apply balanced_free_all.
  - by eapply balanced_buf_freed_loop.
Qed.

End Balanced.

(** ** A map without delayed unmap and its unmap *)

Lemma unmap_frees d b s p m :
  msm_iommu_map_lookup s b d = Some (p, m) → to_int (refcount m - 1) = 0 →
  (msm_dma_unmap_sg d b s).2 =
  {| maps := delete p (maps s);
     map_list := list_del p (map_list s);
     iommu_map_list := list_del p (iommu_map_list s);
     trace := unmap_event m :: trace s |}.
Proof.
  intros Hl Hz. unfold msm_dma_unmap_sg. rewrite Hl, decide_True by done.
  cbn [snd]. erewrite msm_iommu_map_free_live by apply lookup_insert_eq.
  cbn [maps map_list iommu_map_list trace]. by rewrite delete_insert_eq.
Qed.

Section NotLazy.

Variable DMA_ATTR_NO_DELAYED_UNMAP : Z.
Variable dma_map_sg_attrs :
  list event → positive → scatterlist → Z → dma_data_direction → Z →
  Z * scatterlist.
Variable is_device_dma_coherent : positive → bool.

Local Abbreviation Map :=
  (msm_dma_map_sg_attrs DMA_ATTR_NO_DELAYED_UNMAP dma_map_sg_attrs
     is_device_dma_coherent).

(** When [not_lazy] is 1, a miss whose mapping succeeds followed by
    [msm_dma_unmap_sg] for the pair leaves the records and every list of
    both indexes as they were, and the external unmap primitive is called
    once, with the device, the count the mapping primitive returned, the
    direction of the map and a scatterlist whose [dma_address] and
    [dma_length] are the ones the mapping primitive returned.  Nothing is
    said of the rest of that scatterlist, which the code never
    initialises. *)
Theorem map_miss_then_unmap_tears_down d sg0 n0 dr b attrs s :
  wf s → msm_iommu_map_lookup s b d = None →
  (dma_map_sg_attrs (trace s) d sg0 n0 dr attrs).1 ≠ 0 →
  not_lazy DMA_ATTR_NO_DELAYED_UNMAP attrs = 1 →
  maps (msm_dma_unmap_sg d b (Map d sg0 n0 dr b attrs s).2).2 = maps s ∧
  (∀ k, data_list (msm_dma_unmap_sg d b (Map d sg0 n0 dr b attrs s).2).2 k
        = data_list s k) ∧
  (∀ k, dev_list (msm_dma_unmap_sg d b (Map d sg0 n0 dr b attrs s).2).2 k
        = dev_list s k) ∧
  ∃ sg_unmapped,
    trace (msm_dma_unmap_sg d b (Map d sg0 n0 dr b attrs s).2).2
      = Ev_dma_unmap_sg d sg_unmapped
          (dma_map_sg_attrs (trace s) d sg0 n0 dr attrs).1 dr
        :: Ev_dma_map_sg_attrs d n0 dr attrs
             (dma_map_sg_attrs (trace s) d sg0 n0 dr attrs).1
        :: trace s ∧
    dma_address sg_unmapped
      = dma_address (dma_map_sg_attrs (trace s) d sg0 n0 dr attrs).2 ∧
    dma_length sg_unmapped
      = dma_length (dma_map_sg_attrs (trace s) d sg0 n0 dr attrs).2.
Proof.
  intros Hwf Hl Hf Hnl.
  pose proof (kmalloc_nofail_fresh s) as Hfresh.
  assert (Hnd : ∀ k, kmalloc_nofail s ∉ data_list s k).
  { intros k Hk. destruct (data_list_live s k _ Hwf Hk). congruence. }
  assert (Hnv : ∀ k, kmalloc_nofail s ∉ dev_list s k).
  { intros k Hk. destruct (dev_list_live s k _ Hwf Hk). congruence. }
  pose proof (map_miss_lookup DMA_ATTR_NO_DELAYED_UNMAP dma_map_sg_attrs
                is_device_dma_coherent d sg0 n0 dr b attrs s Hl Hf) as Hl1.
  rewrite (unmap_frees _ _ _ _ _ Hl1)
    by (unfold new_map; cbn [refcount]; by rewrite Hnl).
  rewrite map_miss_success by done.
  unfold data_list, dev_list in *. cbn [snd maps map_list iommu_map_list trace].
  split; [|split; [|split]].
  - by rewrite delete_insert_eq, delete_id.
  - intros k. rewrite default_list_del, default_list_add.
    case_decide as Hk.
    + subst k. rewrite filter_cons_False by (by intros []).
      apply filter_all. intros q Hq ->. by apply (Hnd b).
    + apply filter_all. intros q Hq ->. by apply (Hnd k).
  - intros k. rewrite default_list_del, default_list_add.
    case_decide as Hk.
    + subst k. rewrite filter_cons_False by (by intros []).
      apply filter_all. intros q Hq ->. by apply (Hnv d).
    + apply filter_all. intros q Hq ->. by apply (Hnv k).
  - eexists. split; [reflexivity|]. by split.
Qed.

End NotLazy.

(** * Further properties of the kref-based path *)

Example legacy_mapped_once_is :
  Legacy.maps legacy_mapped_once !! 1%positive = Some legacy_record_once ∧
  Legacy.iommu_root legacy_mapped_once !! 1%positive = Some legacy_meta_once.
Proof. split; by vm_compute. Qed.

Lemma set_meta_ref_id mt : Legacy.set_meta_ref (Legacy.meta_ref mt) mt = mt.
Proof. by destruct mt. Qed.

Lemma legacy_count_meta_put f b s :
  (∀ x, f (Ev_WARN x) = false) →
  count f (Legacy.trace (Legacy.msm_iommu_meta_put b s))
    = count f (Legacy.trace s).
Proof.
  intros Hf. unfold Legacy.msm_iommu_meta_put.
  destruct (Legacy.iommu_root s !! b) as [mt|]; [|done].
  case_decide; [|done]. unfold Legacy.msm_iommu_meta_destroy. simpl.
  rewrite lookup_insert_eq. simpl. case_decide; [done|].
  by rewrite count_cons, Hf.
Qed.

Lemma legacy_maps_meta_put b s :
  Legacy.maps (Legacy.msm_iommu_meta_put b s) = Legacy.maps s.
Proof.
  unfold Legacy.msm_iommu_meta_put.
  destruct (Legacy.iommu_root s !! b) as [mt|]; [|done].
  case_decide; [|done]. unfold Legacy.msm_iommu_meta_destroy. simpl.
  by rewrite lookup_insert_eq.
Qed.

(** Dropping the references [meta_get_or_create] took puts the tree of
    metadata objects back: a reference on an existing object is returned,
    an object created for the call is destroyed, and nothing is warned
    about. *)
Lemma legacy_out_restores b attrs allocs s extra allocs1 s1 s1' FLAG :
  Legacy.meta_get_or_create FLAG b attrs allocs s = Some (extra, allocs1, s1) →
  (∀ mt, Legacy.iommu_root s !! b = Some mt →
         0 < Legacy.meta_ref mt < INT_MAX) →
  Legacy.iommu_root s1' = Legacy.iommu_root s1 →
  Legacy.out b extra s1' = Legacy.set_root (Legacy.iommu_root s) s1'.
Proof.
  unfold Legacy.meta_get_or_create, Legacy.out. intros Hg Hsane Hroot.
  destruct (Legacy.iommu_root s !! b) as [mt|] eqn:Hb.
  - injection Hg as <- <- <-. simpl in Hroot.
    destruct (Hsane mt eq_refl) as [Hlo Hhi]. unfold INT_MAX in Hhi.
    unfold Legacy.msm_iommu_meta_put. rewrite Hroot, lookup_insert_eq.
    cbn [Legacy.meta_ref Legacy.set_meta_ref]. unfold Legacy.kref_get.
    rewrite to_int_succ_pred by (unfold INT_MIN, INT_MAX; lia).
    rewrite decide_False by lia.
    unfold Legacy.set_root. f_equal.
    rewrite insert_insert_eq.
    replace (Legacy.set_meta_ref _ _) with mt by (by destruct mt).
    by apply insert_id.
  - destruct (Legacy.alloc allocs) as [[] allocs']; [|done].
    injection Hg as <- <- <-. simpl in Hroot.
    unfold Legacy.msm_iommu_meta_put.
    destruct (Legacy.late_unmap FLAG attrs).
    + rewrite Hroot, lookup_insert_eq. cbn [Legacy.meta_ref].
      change (to_int (Legacy.kref_get Legacy.kref_init - 1)) with 1.
      rewrite decide_False by done. unfold Legacy.set_root at 1 2 3.
      cbn [Legacy.iommu_root]. rewrite lookup_insert_eq.
      cbn [Legacy.meta_ref Legacy.set_meta_ref].
      change (to_int (1 - 1)) with 0. rewrite decide_True by done.
      unfold Legacy.msm_iommu_meta_destroy, Legacy.set_root.
      cbn [Legacy.iommu_root Legacy.maps Legacy.trace].
      rewrite lookup_insert_eq. cbn [Legacy.iommu_maps].
      rewrite decide_True by done. f_equal.
      by rewrite !delete_insert_eq, delete_id.
    + rewrite Hroot, lookup_insert_eq. cbn [Legacy.meta_ref].
      change (to_int (Legacy.kref_init - 1)) with 0.
      rewrite decide_True by done.
      unfold Legacy.msm_iommu_meta_destroy, Legacy.set_root.
      cbn [Legacy.iommu_root Legacy.maps Legacy.trace].
      rewrite lookup_insert_eq. cbn [Legacy.iommu_maps].
      rewrite decide_True by done. f_equal.
      by rewrite !delete_insert_eq, delete_id.
Qed.

Section LegacyMore.

Variable DMA_ATTR_NO_DELAYED_UNMAP : Z.
Variable dma_map_sg_attrs :
  list event → positive → scatterlist → Z → dma_data_direction → Z →
  Z * scatterlist.
Variable is_device_dma_coherent : positive → bool.

Local Abbreviation Lmap :=
  (Legacy.__msm_dma_map_sg DMA_ATTR_NO_DELAYED_UNMAP dma_map_sg_attrs
     is_device_dma_coherent).

Lemma legacy_lookup_after_add b d p m s mt :
  Legacy.iommu_root s !! b = Some mt → Legacy.dev m = d →
  Legacy.msm_iommu_lookup (Legacy.msm_iommu_add b p m s) b d = Some (p, m).
Proof.
  intros Hb Hd. unfold Legacy.msm_iommu_lookup, Legacy.msm_iommu_add. simpl.
  rewrite lookup_alter_eq, Hb. simpl. rewrite lookup_insert_eq.
  by rewrite decide_True.
Qed.

(** On a miss [__msm_dma_map_sg] is all or nothing: either it returns
    [-ENOMEM] or 0 and the tree of metadata objects and the records are
    exactly what they were, or it returns the non-zero count of the
    mapping primitive and a fresh record is linked that the next lookup
    finds.  (The metadata kref of a buffer that is already known is
    assumed live: positive and below [INT_MAX].) *)
Theorem legacy_miss_all_or_nothing d sg0 n0 dr b attrs allocs s :
  Legacy.msm_iommu_lookup s b d = None →
  (∀ mt, Legacy.iommu_root s !! b = Some mt →
         0 < Legacy.meta_ref mt < INT_MAX) →
  (((Lmap d sg0 n0 dr b attrs allocs s).1.1 = - Legacy.ENOMEM ∨
    (Lmap d sg0 n0 dr b attrs allocs s).1.1 = 0) ∧
   Legacy.iommu_root (Lmap d sg0 n0 dr b attrs allocs s).2
     = Legacy.iommu_root s ∧
   Legacy.maps (Lmap d sg0 n0 dr b attrs allocs s).2 = Legacy.maps s)
  ∨
  ((Lmap d sg0 n0 dr b attrs allocs s).1.1
     = (dma_map_sg_attrs (Legacy.trace s) d sg0 n0 dr attrs).1 ∧
   (Lmap d sg0 n0 dr b attrs allocs s).1.1 ≠ 0 ∧
   ∃ p m, Legacy.maps s !! p = None ∧
     Legacy.maps (Lmap d sg0 n0 dr b attrs allocs s).2
       = <[p := m]> (Legacy.maps s) ∧
     Legacy.msm_iommu_lookup (Lmap d sg0 n0 dr b attrs allocs s).2 b d
       = Some (p, m)).
Proof.
  intros Hl Hsane. unfold Legacy.__msm_dma_map_sg.
  destruct (Legacy.meta_get_or_create _ b attrs allocs s)
    as [[[extra allocs1] s1]|] eqn:Hg; [|left; by repeat split; [left|..]].
  destruct (legacy_meta_get _ b d _ _ _ _ _ _ Hg) as (Hm & Ht & Hl1).
  rewrite Hl1, Hl.
  destruct (Legacy.alloc allocs1) as [[] allocs2]; simpl.
  2:{ left. rewrite (legacy_out_restores _ _ _ _ _ _ _ s1 _ Hg Hsane eq_refl).
      simpl. by repeat split; [left|..]. }
  rewrite Ht.
  destruct (dma_map_sg_attrs (Legacy.trace s) d sg0 n0 dr attrs)
    as [ret sg1] eqn:Hprim.
  case_decide as Hret; simpl.
  { left. erewrite (legacy_out_restores _ _ _ _ _ _ _ _ _ Hg Hsane) by done.
    simpl. by repeat split; [right|..]. }
  destruct (Legacy.alloc allocs2) as [[] allocs3]; simpl.
  2:{ left. erewrite (legacy_out_restores _ _ _ _ _ _ _ _ _ Hg Hsane) by done.
      simpl. by repeat split; [left|..]. }
  right. split; [done|]. split; [done|].
  eexists _, _. split; [|split].
  - rewrite <- Hm. apply not_elem_of_dom, is_fresh.
  - simpl. by rewrite Hm.
  - assert (is_Some (Legacy.iommu_root s1 !! b)) as [mt1 Hb1].
    { revert Hg. unfold Legacy.meta_get_or_create.
      destruct (Legacy.iommu_root s !! b).
      - intros [= <- <- <-]. simpl. rewrite lookup_insert_eq. eauto.
      - destruct (Legacy.alloc allocs) as [[] ?]; [|done].
        intros [= <- <- <-]. simpl. rewrite lookup_insert_eq. eauto. }
    by apply (legacy_lookup_after_add b d _ _ _ mt1).
Qed.

(** A hit takes one reference on the buffer's metadata object, and keeps
    it, whether the request matches the record or is rejected with
    [-EINVAL]. *)
Theorem legacy_hit_takes_meta_reference d sg0 n0 dr b attrs allocs s mt :
  Legacy.iommu_root s !! b = Some mt →
  is_Some (Legacy.msm_iommu_lookup s b d) →
  Legacy.iommu_root (Lmap d sg0 n0 dr b attrs allocs s).2
    = <[b := Legacy.set_meta_ref (Legacy.kref_get (Legacy.meta_ref mt)) mt]>
        (Legacy.iommu_root s).
Proof.
  intros Hb [[p m] Hl]. unfold Legacy.__msm_dma_map_sg.
  assert (Legacy.meta_get_or_create DMA_ATTR_NO_DELAYED_UNMAP b attrs allocs s
          = Some (false, allocs,
                  Legacy.set_root
                    (<[b := Legacy.set_meta_ref
                              (Legacy.kref_get (Legacy.meta_ref mt)) mt]>
                       (Legacy.iommu_root s)) s)) as Hg.
  { unfold Legacy.meta_get_or_create. by rewrite Hb. }
  destruct (legacy_meta_get _ b d _ _ _ _ _ _ Hg) as (_ & _ & Hl1).
  rewrite Hg, Hl1, Hl. by case_decide.
Qed.

(** After a miss that mapped successfully with memory available, the
    same request again (the mapping primitive having left the physical
    address of the scatterlist alone) is a matching hit: it returns
    [nents] and the address range of the first call, and does not call
    the external mapping primitive. *)
Theorem legacy_second_map_reuses d sg0 n0 dr b attrs allocs' s :
  Legacy.msm_iommu_lookup s b d = None →
  (dma_map_sg_attrs (Legacy.trace s) d sg0 n0 dr attrs).1 ≠ 0 →
  sg_phys (dma_map_sg_attrs (Legacy.trace s) d sg0 n0 dr attrs).2
    = sg_phys sg0 →
  (Lmap d sg0 n0 dr b attrs allocs' (Lmap d sg0 n0 dr b attrs [] s).2).1.1 = n0 ∧
  dma_address
    (Lmap d sg0 n0 dr b attrs allocs' (Lmap d sg0 n0 dr b attrs [] s).2).1.2
    = dma_address (Lmap d sg0 n0 dr b attrs [] s).1.2 ∧
  dma_length
    (Lmap d sg0 n0 dr b attrs allocs' (Lmap d sg0 n0 dr b attrs [] s).2).1.2
    = dma_length (Lmap d sg0 n0 dr b attrs [] s).1.2 ∧
  count is_map_call
    (Legacy.trace
       (Lmap d sg0 n0 dr b attrs allocs' (Lmap d sg0 n0 dr b attrs [] s).2).2)
    = count is_map_call (Legacy.trace (Lmap d sg0 n0 dr b attrs [] s).2).
Proof.
  intros Hl Hf Hphys.
  assert (∃ extra s1,
    Legacy.meta_get_or_create DMA_ATTR_NO_DELAYED_UNMAP b attrs [] s
      = Some (extra, [], s1)) as (extra & s1 & Hg).
  { unfold Legacy.meta_get_or_create.
    destruct (Legacy.iommu_root s !! b); simpl; eauto. }
  destruct (legacy_meta_get _ b d _ _ _ _ _ _ Hg) as (Hm & Ht & Hl1).
  assert (is_Some (Legacy.iommu_root s1 !! b)) as [mt1 Hb1].
  { revert Hg. unfold Legacy.meta_get_or_create.
    destruct (Legacy.iommu_root s !! b); simpl;
      intros [= <- <-]; simpl; rewrite lookup_insert_eq; eauto. }
  set (first := Lmap d sg0 n0 dr b attrs [] s).
  assert (∃ p,
    first = ((dma_map_sg_attrs (Legacy.trace s) d sg0 n0 dr attrs).1,
             (dma_map_sg_attrs (Legacy.trace s) d sg0 n0 dr attrs).2,
             Legacy.msm_iommu_add b p
               {| Legacy.dev := d;
                  Legacy.sgl := (dma_map_sg_attrs (Legacy.trace s) d sg0 n0 dr attrs).2;
                  Legacy.nents := n0;
                  Legacy.ref := if Legacy.late_unmap DMA_ATTR_NO_DELAYED_UNMAP attrs
                                then Legacy.kref_get Legacy.kref_init
                                else Legacy.kref_init;
                  Legacy.meta := b; Legacy.dir := dr; Legacy.map_attrs := attrs;
                  Legacy.buf_start_addr :=
                    sg_phys (dma_map_sg_attrs (Legacy.trace s) d sg0 n0 dr attrs).2 |}
               (Legacy.log
                  (Ev_dma_map_sg_attrs d n0 dr attrs
                     (dma_map_sg_attrs (Legacy.trace s) d sg0 n0 dr attrs).1) s1)))
    as [p Hfirst].
  { unfold first, Legacy.__msm_dma_map_sg. rewrite Hg, Hl1, Hl. simpl.
    rewrite Ht.
    destruct (dma_map_sg_attrs (Legacy.trace s) d sg0 n0 dr attrs) as [ret sg1].
    simpl in Hf. rewrite decide_False by done. simpl. eauto. }
  rewrite Hfirst. cbn [fst snd].
  set (m := Legacy.Msm_iommu_map _ _ _ _ _ _ _ _).
  set (s2 := Legacy.log _ s1).
  assert (Hl2 : Legacy.msm_iommu_lookup (Legacy.msm_iommu_add b p m s2) b d
                = Some (p, m))
    by (by apply (legacy_lookup_after_add b d p m s2 mt1)).
  destruct (legacy_hit_match DMA_ATTR_NO_DELAYED_UNMAP dma_map_sg_attrs
              is_device_dma_coherent d sg0 n0 dr b attrs allocs' _ p m Hl2)
    as (Hr & Ha & Hlen & _); [by repeat split|].
  split; [done|]. split; [done|]. split; [done|].
  destruct (legacy_meta_get_found DMA_ATTR_NO_DELAYED_UNMAP b d attrs allocs'
              (Legacy.msm_iommu_add b p m s2)) as [s3 Hg3]; [eauto|].
  destruct (legacy_meta_get _ b d _ _ _ _ _ _ Hg3) as (_ & Ht3 & Hl3).
  unfold Legacy.__msm_dma_map_sg. rewrite Hg3, Hl3, Hl2.
  rewrite decide_True by (by repeat split). simpl. rewrite Ht3.
  destruct (is_device_dma_coherent d); [|done]. by rewrite count_cons.
Qed.

End LegacyMore.

Section LegacyHit.

Variable DMA_ATTR_NO_DELAYED_UNMAP : Z.
Variable dma_map_sg_attrs :
  list event → positive → scatterlist → Z → dma_data_direction → Z →
  Z * scatterlist.
Variable is_device_dma_coherent : positive → bool.

Local Abbreviation Lmap :=
  (Legacy.__msm_dma_map_sg DMA_ATTR_NO_DELAYED_UNMAP dma_map_sg_attrs
     is_device_dma_coherent).

(** On a hit [__msm_dma_map_sg] compares the request with the record: when
    [nents], direction, attribute flags and start address all agree it
    takes one reference on the record and returns [nents] with the cached
    address range; when any of them differs it returns [-EINVAL], hands
    the scatterlist back untouched and changes no record. *)
Theorem legacy_hit_compares_request d sg0 n0 dr b attrs allocs s p m :
  Legacy.msm_iommu_lookup s b d = Some (p, m) →
  (n0 = Legacy.nents m ∧ dr = Legacy.dir m ∧ attrs = Legacy.map_attrs m
     ∧ sg_phys sg0 = Legacy.buf_start_addr m →
   (Lmap d sg0 n0 dr b attrs allocs s).1.1 = n0 ∧
   dma_address (Lmap d sg0 n0 dr b attrs allocs s).1.2
     = dma_address (Legacy.sgl m) ∧
   dma_length (Lmap d sg0 n0 dr b attrs allocs s).1.2
     = dma_length (Legacy.sgl m) ∧
   Legacy.maps (Lmap d sg0 n0 dr b attrs allocs s).2
     = <[p := Legacy.set_ref (Legacy.kref_get (Legacy.ref m)) m]>
         (Legacy.maps s)) ∧
  (¬ (n0 = Legacy.nents m ∧ dr = Legacy.dir m ∧ attrs = Legacy.map_attrs m
      ∧ sg_phys sg0 = Legacy.buf_start_addr m) →
   (Lmap d sg0 n0 dr b attrs allocs s).1.1 = - Legacy.EINVAL ∧
   (Lmap d sg0 n0 dr b attrs allocs s).1.2 = sg0 ∧
   Legacy.maps (Lmap d sg0 n0 dr b attrs allocs s).2 = Legacy.maps s).
Proof.
  intros Hl. split; intros H.
  - by apply (legacy_hit_match _ _ _ d sg0 n0 dr b attrs allocs s p m).
  - by apply (legacy_hit_mismatch _ _ _ d sg0 n0 dr b attrs allocs s p m).
Qed.

(** When the metadata object of the buffer exists and the table for the
    copy of the scatterlist cannot be allocated, [__msm_dma_map_sg]
    returns [-ENOMEM] and caches nothing, but the mapping the external
    primitive has just established is not torn down: the trace gains a
    successful map call and no unmap call. *)
Theorem legacy_enomem_leaves_mapping_established d sg0 n0 dr b attrs s mt :
  Legacy.iommu_root s !! b = Some mt →
  Legacy.msm_iommu_lookup s b d = None →
  (dma_map_sg_attrs (Legacy.trace s) d sg0 n0 dr attrs).1 ≠ 0 →
  (Lmap d sg0 n0 dr b attrs [true; false] s).1.1 = - Legacy.ENOMEM ∧
  Legacy.maps (Lmap d sg0 n0 dr b attrs [true; false] s).2 = Legacy.maps s ∧
  count is_map_ok (Legacy.trace (Lmap d sg0 n0 dr b attrs [true; false] s).2)
    = S (count is_map_ok (Legacy.trace s)) ∧
  count is_unmap (Legacy.trace (Lmap d sg0 n0 dr b attrs [true; false] s).2)
    = count is_unmap (Legacy.trace s).
Proof.
  intros Hb Hl Hf.
  assert (∃ s1,
    Legacy.meta_get_or_create DMA_ATTR_NO_DELAYED_UNMAP b attrs [true; false] s
      = Some (false, [true; false], s1)) as (s1 & Hg).
  { unfold Legacy.meta_get_or_create. rewrite Hb. eauto. }
  destruct (legacy_meta_get _ b d _ _ _ _ _ _ Hg) as (Hm & Ht & Hl1).
  unfold Legacy.__msm_dma_map_sg. rewrite Hg, Hl1, Hl. simpl. rewrite Ht.
  destruct (dma_map_sg_attrs _ _ _ _ _ _) as [ret sg1]. simpl in Hf.
  rewrite decide_False by done. simpl.
  unfold Legacy.out. split; [done|].
  rewrite legacy_maps_meta_put, !legacy_count_meta_put by done. simpl.
  rewrite Hm, Ht, !count_cons. simpl.
  apply Z.eqb_neq in Hf. by rewrite Hf.
Qed.

End LegacyHit.

(** [msm_iommu_meta_put] drops one reference of the metadata object: a
    count above 1 is decremented and nothing else changes; the last
    reference erases the object from the tree, keeps every mapping
    record, and warns exactly when the object still lists mappings. *)
Theorem legacy_meta_put_drops_reference b mt s :
  Legacy.iommu_root s !! b = Some mt →
  (1 < Legacy.meta_ref mt ≤ INT_MAX →
   Legacy.msm_iommu_meta_put b s
     = Legacy.set_root
         (<[b := Legacy.set_meta_ref (Legacy.meta_ref mt - 1) mt]>
            (Legacy.iommu_root s)) s) ∧
  (Legacy.meta_ref mt = 1 →
   Legacy.iommu_root (Legacy.msm_iommu_meta_put b s)
     = delete b (Legacy.iommu_root s) ∧
   Legacy.maps (Legacy.msm_iommu_meta_put b s) = Legacy.maps s ∧
   Legacy.trace (Legacy.msm_iommu_meta_put b s)
     = if decide (Legacy.iommu_maps mt = []) then Legacy.trace s
       else Ev_WARN (Legacy.buffer mt) :: Legacy.trace s).
Proof.
  intros Hb. unfold Legacy.msm_iommu_meta_put. rewrite Hb. split.
  - intros [Hlo Hhi]. unfold INT_MAX in Hhi.
    rewrite to_int_id by (unfold INT_MIN, INT_MAX; lia).
    by rewrite decide_False by lia.
  - intros ->. change (to_int (1 - 1)) with 0. rewrite decide_True by done.
    unfold Legacy.msm_iommu_meta_destroy, Legacy.set_root. simpl.
    rewrite lookup_insert_eq. simpl. by rewrite delete_insert_eq.
Qed.



(** * The further properties on concrete runs *)

Lemma wf_mapped_three : wf mapped_three.
Proof. do 2 apply wf_msm_dma_map_sg_attrs. apply wf_mapped_once. Qed.

Lemma reachable_mapped_three :
  reachable 1 dma_map_ok not_coherent mapped_three.
Proof.
  eapply reach_step; [|apply step_map].
  eapply reach_step; [|apply step_map].
  apply reachable_mapped_once.
Qed.

Example mapped_three_is :
  maps mapped_three !! 1%positive = Some record_once ∧
  maps mapped_three !! 2%positive = Some record_two ∧
  maps mapped_three !! 3%positive = Some record_three ∧
  data_list mapped_three 1 = [2%positive; 1%positive] ∧
  data_list mapped_three 2 = [3%positive] ∧
  dev_list mapped_three 1 = [3%positive; 1%positive] ∧
  dev_list mapped_three 2 = [2%positive].
Proof. repeat split; by vm_compute. Qed.

Lemma lookup_finds_the_record_witness :
  wf mapped_three ∧
  (msm_iommu_map_lookup mapped_three 1 2 = Some (2%positive, record_two) ↔
   maps mapped_three !! 2%positive = Some record_two ∧
   dev record_two = 2%positive ∧ data record_two = 1%positive).
Proof.
  split; [apply wf_mapped_three|].
  apply (lookup_finds_the_record_of_the_pair mapped_three 1 2 2 record_two),
    wf_mapped_three.
Defined.

Lemma second_map_reuses_witness :
  (msm_iommu_map_lookup empty_state 1 1 = None ∧
   (dma_map_ok (trace empty_state) 1 sg_in 1 DMA_TO_DEVICE 0).1 ≠ 0) ∧
  dma_address
    (msm_dma_map_sg_attrs 1 dma_map_ok not_coherent 1 sg_in 4 DMA_FROM_DEVICE
       1 1 (msm_dma_map_sg_attrs 1 dma_map_ok not_coherent 1 sg_in 1
              DMA_TO_DEVICE 1 0 empty_state).2).1.2
  = dma_address
      (msm_dma_map_sg_attrs 1 dma_map_ok not_coherent 1 sg_in 1
         DMA_TO_DEVICE 1 0 empty_state).1.2.
Proof.
  split; [split; by vm_compute|].
  apply (second_map_reuses_the_mapping 1 dma_map_ok not_coherent
           1 sg_in 1 DMA_TO_DEVICE 1 0 sg_in 4 DMA_FROM_DEVICE 1 empty_state);
    by vm_compute.
Defined.

Lemma map_then_unmap_restores_witness :
  (msm_iommu_map_lookup mapped_three 1 1 = Some (1%positive, record_once) ∧
   INT_MIN ≤ refcount record_once ≤ INT_MAX ∧ refcount record_once ≠ 0) ∧
  maps (msm_dma_unmap_sg 1 1
          (msm_dma_map_sg_attrs 1 dma_map_ok not_coherent 1 sg_in 1
             DMA_TO_DEVICE 1 0 mapped_three).2).2 = maps mapped_three.
Proof.
  split; [repeat split; by vm_compute|].
  apply (map_then_unmap_restores 1 dma_map_ok not_coherent 1 sg_in 1
           DMA_TO_DEVICE 1 0 mapped_three 1 record_once);
    [by vm_compute|split; by vm_compute|by vm_compute].
Defined.

Lemma unmap_leaves_no_zero_refcount_witness :
  (wf mapped_three ∧
   msm_iommu_map_lookup (msm_dma_unmap_sg 1 1 mapped_three).2 1 1
     = Some (1%positive, set_refcount 1 record_once)) ∧
  refcount (set_refcount 1 record_once) ≠ 0.
Proof.
  split; [split; [apply wf_mapped_three|by vm_compute]|].
  apply (unmap_leaves_no_zero_refcount 1 1 mapped_three 1
           (set_refcount 1 record_once)); [apply wf_mapped_three|by vm_compute].
Defined.

Lemma unmap_leaves_other_pairs_witness :
  (wf mapped_three ∧ ¬ (2%positive = 1%positive ∧ 1%positive = 1%positive)) ∧
  msm_iommu_map_lookup (msm_dma_unmap_sg 1 1 mapped_three).2 1 2
    = msm_iommu_map_lookup mapped_three 1 2.
Proof.
  split; [split; [apply wf_mapped_three|by intros [? _]]|].
  apply (unmap_leaves_other_pairs 1 1 2 1 mapped_three);
    [apply wf_mapped_three|by intros [? _]].
Defined.

Lemma map_leaves_other_pairs_witness :
  (wf mapped_three ∧ ¬ (2%positive = 1%positive ∧ 1%positive = 1%positive)) ∧
  msm_iommu_map_lookup
    (msm_dma_map_sg_attrs 1 dma_map_ok not_coherent 1 sg_in 1 DMA_TO_DEVICE
       1 0 mapped_three).2 1 2
    = msm_iommu_map_lookup mapped_three 1 2.
Proof.
  split; [split; [apply wf_mapped_three|by intros [? _]]|].
  apply (map_leaves_other_pairs 1 dma_map_ok not_coherent 1 sg_in 1
           DMA_TO_DEVICE 1 0 2 1 mapped_three);
    [apply wf_mapped_three|by intros [? _]].
Defined.

Lemma unmap_all_leaves_other_devices_witness :
  (wf mapped_three ∧ 2%positive ≠ 1%positive) ∧
  dev_list (msm_dma_unmap_all_for_dev 1 mapped_three).2 2
    = dev_list mapped_three 2 ∧
  ∀ b, msm_iommu_map_lookup (msm_dma_unmap_all_for_dev 1 mapped_three).2 b 2
       = msm_iommu_map_lookup mapped_three b 2.
Proof.
  split; [split; [apply wf_mapped_three|done]|].
  apply (unmap_all_leaves_other_devices 1 2 mapped_three);
    [apply wf_mapped_three|done].
Defined.

Lemma unmap_all_twice_witness :
  wf mapped_three ∧
  msm_dma_unmap_all_for_dev 1 (msm_dma_unmap_all_for_dev 1 mapped_three).2
    = (tt, (msm_dma_unmap_all_for_dev 1 mapped_three).2).
Proof.
  split; [apply wf_mapped_three|].
  apply (unmap_all_twice 1 mapped_three), wf_mapped_three.
Defined.

Lemma unmap_after_unmap_all_witness :
  wf mapped_three ∧
  msm_dma_unmap_sg 1 2 (msm_dma_unmap_all_for_dev 1 mapped_three).2
    = (tt, (msm_dma_unmap_all_for_dev 1 mapped_three).2).
Proof.
  split; [apply wf_mapped_three|].
  apply (unmap_after_unmap_all 1 2 mapped_three), wf_mapped_three.
Defined.

Lemma buf_freed_schedule_independent_witness :
  (wf mapped_three ∧ (length [false; true; false] < 4)%nat) ∧
  msm_dma_buf_freed 4 1 [false; true; false] mapped_three
    = Some (free_all (data_list mapped_three 1) mapped_three) ∧
  msm_dma_buf_freed 4 1 [false; true; false] mapped_three
    = msm_dma_buf_freed 1 1 [] mapped_three.
Proof.
  split; [split; [apply wf_mapped_three|simpl; lia]|].
  apply (buf_freed_schedule_independent 4 1 [false; true; false] mapped_three);
    [apply wf_mapped_three|simpl; lia].
Defined.

Lemma buf_freed_leaves_other_buffers_witness :
  (wf mapped_three ∧ 2%positive ≠ 1%positive ∧
   msm_dma_buf_freed 3 1 [true; false] mapped_three
     = Some (free_all [2%positive; 1%positive] mapped_three)) ∧
  data_list (free_all [2%positive; 1%positive] mapped_three) 2
    = data_list mapped_three 2 ∧
  ∀ d, msm_iommu_map_lookup (free_all [2%positive; 1%positive] mapped_three) 2 d
       = msm_iommu_map_lookup mapped_three 2 d.
Proof.
  split; [split; [apply wf_mapped_three|split; [done|by vm_compute]]|].
  apply (buf_freed_leaves_other_buffers 3 1 [true; false] 2 mapped_three);
    [apply wf_mapped_three|done|by vm_compute].
Defined.

Lemma buf_freed_then_nothing_left_witness :
  (wf mapped_three ∧
   msm_dma_buf_freed 3 1 [true; false] mapped_three
     = Some (free_all [2%positive; 1%positive] mapped_three)) ∧
  (∀ fuel' locks',
     msm_dma_buf_freed (S fuel') 1 locks'
       (free_all [2%positive; 1%positive] mapped_three)
     = Some (free_all [2%positive; 1%positive] mapped_three)) ∧
  (∀ d, msm_dma_unmap_sg d 1 (free_all [2%positive; 1%positive] mapped_three)
        = (tt, free_all [2%positive; 1%positive] mapped_three)).
Proof.
  split; [split; [apply wf_mapped_three|by vm_compute]|].
  apply (buf_freed_then_nothing_left 3 1 [true; false] mapped_three);
    [apply wf_mapped_three|by vm_compute].
Defined.

Lemma reachable_balanced_witness :
  reachable 1 dma_map_ok not_coherent mapped_three ∧
  count is_map_ok (trace mapped_three)
    = (count is_unmap (trace mapped_three) + size (maps mapped_three))%nat.
Proof.
  split; [apply reachable_mapped_three|].
  apply (reachable_balanced 1 dma_map_ok not_coherent mapped_three),
    reachable_mapped_three.
Defined.

Lemma map_miss_then_unmap_witness :
  (wf mapped_three ∧ msm_iommu_map_lookup mapped_three 2 2 = None ∧
   (dma_map_ok (trace mapped_three) 2 sg_in 1 DMA_TO_DEVICE 1).1 ≠ 0 ∧
   not_lazy 1 1 = 1) ∧
  maps (msm_dma_unmap_sg 2 2
          (msm_dma_map_sg_attrs 1 dma_map_ok not_coherent 2 sg_in 1
             DMA_TO_DEVICE 2 1 mapped_three).2).2 = maps mapped_three.
Proof.
  split; [split; [apply wf_mapped_three|repeat split; by vm_compute]|].
  apply (map_miss_then_unmap_tears_down 1 dma_map_ok not_coherent 2 sg_in 1
           DMA_TO_DEVICE 2 1 mapped_three);
    [apply wf_mapped_three|by vm_compute..].
Defined.

Lemma legacy_miss_all_or_nothing_witness :
  (Legacy.msm_iommu_lookup legacy_mapped_once 1 2 = None ∧
   ∀ mt, Legacy.iommu_root legacy_mapped_once !! 1%positive = Some mt →
         0 < Legacy.meta_ref mt < INT_MAX) ∧
  (Legacy.__msm_dma_map_sg 1 dma_map_fail not_coherent 2 sg_in 1
     DMA_TO_DEVICE 1 0 [] legacy_mapped_once).1.1 = 0 ∧
  Legacy.iommu_root
    (Legacy.__msm_dma_map_sg 1 dma_map_fail not_coherent 2 sg_in 1
       DMA_TO_DEVICE 1 0 [] legacy_mapped_once).2
  = Legacy.iommu_root legacy_mapped_once.
Proof.
  assert (Hsane : ∀ mt,
            Legacy.iommu_root legacy_mapped_once !! 1%positive = Some mt →
            0 < Legacy.meta_ref mt < INT_MAX).
  { intros mt Hmt. vm_compute in Hmt. injection Hmt as <-. simpl.
    unfold INT_MAX. lia. }
  split; [split; [vm_compute; reflexivity|exact Hsane]|].
  destruct (legacy_miss_all_or_nothing 1 dma_map_fail not_coherent 2 sg_in 1
              DMA_TO_DEVICE 1 0 [] legacy_mapped_once eq_refl Hsane)
    as [(_ & Hroot & _)|(_ & Hnz & _)].
  - split; [vm_compute; reflexivity|exact Hroot].
  - exfalso. apply Hnz. vm_compute. reflexivity.
Defined.

Lemma legacy_hit_takes_meta_reference_witness :
  (Legacy.iommu_root legacy_mapped_once !! 1%positive = Some legacy_meta_once ∧
   is_Some (Legacy.msm_iommu_lookup legacy_mapped_once 1 1)) ∧
  Legacy.iommu_root
    (Legacy.__msm_dma_map_sg 1 dma_map_ok not_coherent 1 sg_in 1
       DMA_FROM_DEVICE 1 0 [] legacy_mapped_once).2
  = <[1%positive := Legacy.set_meta_ref
                      (Legacy.kref_get (Legacy.meta_ref legacy_meta_once))
                      legacy_meta_once]>
      (Legacy.iommu_root legacy_mapped_once).
Proof.
  assert (is_Some (Legacy.msm_iommu_lookup legacy_mapped_once 1 1)) as Hs
    by (eexists; vm_compute; reflexivity).
  split; [split; [by vm_compute|exact Hs]|].
  apply (legacy_hit_takes_meta_reference 1 dma_map_ok not_coherent 1 sg_in 1
           DMA_FROM_DEVICE 1 0 [] legacy_mapped_once legacy_meta_once);
    [by vm_compute|exact Hs].
Defined.

Lemma legacy_second_map_reuses_witness :
  (Legacy.msm_iommu_lookup legacy_empty 1 1 = None ∧
   (dma_map_ok (Legacy.trace legacy_empty) 1 sg_in 1 DMA_TO_DEVICE 0).1 ≠ 0 ∧
   sg_phys (dma_map_ok (Legacy.trace legacy_empty) 1 sg_in 1 DMA_TO_DEVICE 0).2
     = sg_phys sg_in) ∧
  (Legacy.__msm_dma_map_sg 1 dma_map_ok not_coherent 1 sg_in 1 DMA_TO_DEVICE
     1 0 [false]
     (Legacy.__msm_dma_map_sg 1 dma_map_ok not_coherent 1 sg_in 1
        DMA_TO_DEVICE 1 0 [] legacy_empty).2).1.1 = 1.
Proof.
  split; [repeat split; by vm_compute|].
  apply (legacy_second_map_reuses 1 dma_map_ok not_coherent 1 sg_in 1
           DMA_TO_DEVICE 1 0 [false] legacy_empty); by vm_compute.
Defined.

Lemma legacy_hit_compares_request_witness :
  Legacy.msm_iommu_lookup legacy_mapped_once 1 1
    = Some (1%positive, legacy_record_once) ∧
  (¬ (1 = Legacy.nents legacy_record_once ∧
      DMA_FROM_DEVICE = Legacy.dir legacy_record_once ∧
      0 = Legacy.map_attrs legacy_record_once ∧
      sg_phys sg_in = Legacy.buf_start_addr legacy_record_once) →
   (Legacy.__msm_dma_map_sg 1 dma_map_ok not_coherent 1 sg_in 1
      DMA_FROM_DEVICE 1 0 [] legacy_mapped_once).1.1 = - Legacy.EINVAL ∧
   (Legacy.__msm_dma_map_sg 1 dma_map_ok not_coherent 1 sg_in 1
      DMA_FROM_DEVICE 1 0 [] legacy_mapped_once).1.2 = sg_in ∧
   Legacy.maps
     (Legacy.__msm_dma_map_sg 1 dma_map_ok not_coherent 1 sg_in 1
        DMA_FROM_DEVICE 1 0 [] legacy_mapped_once).2
   = Legacy.maps legacy_mapped_once).
Proof.
  split; [by vm_compute|].
  apply (legacy_hit_compares_request 1 dma_map_ok not_coherent 1 sg_in 1
           DMA_FROM_DEVICE 1 0 [] legacy_mapped_once 1 legacy_record_once).
  by vm_compute.
Defined.

Lemma legacy_enomem_witness :
  (Legacy.iommu_root legacy_mapped_once !! 1%positive = Some legacy_meta_once ∧
   Legacy.msm_iommu_lookup legacy_mapped_once 1 2 = None ∧
   (dma_map_ok (Legacy.trace legacy_mapped_once) 2 sg_in 1 DMA_TO_DEVICE 0).1
     ≠ 0) ∧
  (Legacy.__msm_dma_map_sg 1 dma_map_ok not_coherent 2 sg_in 1 DMA_TO_DEVICE
     1 0 [true; false] legacy_mapped_once).1.1 = - Legacy.ENOMEM.
Proof.
  split; [repeat split; by vm_compute|].
  apply (legacy_enomem_leaves_mapping_established 1 dma_map_ok not_coherent
           2 sg_in 1 DMA_TO_DEVICE 1 0 legacy_mapped_once legacy_meta_once);
    by vm_compute.
Defined.

Lemma legacy_meta_put_witness :
  Legacy.iommu_root legacy_mapped_once !! 1%positive = Some legacy_meta_once ∧
  (1 < Legacy.meta_ref legacy_meta_once ≤ INT_MAX →
   Legacy.msm_iommu_meta_put 1 legacy_mapped_once
   = Legacy.set_root
       (<[1%positive := Legacy.set_meta_ref
                          (Legacy.meta_ref legacy_meta_once - 1)
                          legacy_meta_once]>
          (Legacy.iommu_root legacy_mapped_once)) legacy_mapped_once).
Proof.
  split; [by vm_compute|].
  apply (legacy_meta_put_drops_reference 1 legacy_meta_once legacy_mapped_once).
  by vm_compute.
Defined.


Lemma legacy_refcount_init_witness :
  (Legacy.msm_iommu_lookup legacy_empty 1 1 = None ∧
   (dma_map_ok (Legacy.trace legacy_empty) 1 sg_in 1 DMA_TO_DEVICE 2048).1 ≠ 0) ∧
  ∃ p m,
    Legacy.maps legacy_empty !! p = None ∧
    Legacy.maps
      (Legacy.__msm_dma_map_sg (2 ^ 11) dma_map_ok not_coherent 1 sg_in 1
         DMA_TO_DEVICE 1 2048 [] legacy_empty).2 !! p = Some m ∧
    Legacy.dev m = 1%positive ∧
    Legacy.ref m = if decide (Z.land 2048 (2 ^ 11) = 0) then 2 else 1.
Proof.
  split; [split; by vm_compute|].
  apply (legacy_refcount_init (2 ^ 11) dma_map_ok not_coherent 1 sg_in 1
           DMA_TO_DEVICE 1 2048 legacy_empty); by vm_compute.
Defined.
